(** * PST to mbox converter: a shallow embedding of [pst_to_mbox.py]

    The development follows the class [PSTToMboxConverter]: Python strings
    are lists of code points, attribute reads on the objects handed out by
    the PST reader are outcomes (a value, [None], or a raised exception),
    and the methods of the converter are computations in a small
    state-and-exception monad over the converter's counters, its logger
    output and the mbox file. *)

From Stdlib Require Import List ZArith NArith String Ascii Bool Lia.
From Stdlib Require Import DecimalString.
Import ListNotations.
Local Open Scope Z_scope.

Set Implicit Arguments.

(* ===================================================================== *)
(** ** Python exceptions *)
(* ===================================================================== *)

(** The exception classes the converter names, together with the ones the
    PST reader and the file system raise.  [KeyboardInterrupt] derives from
    [BaseException] only; the others derive from [Exception]. *)
Inductive exn : Type :=
| SystemError
| ValueError
| UnicodeDecodeError
| UnicodeEncodeError
| OverflowError
| AttributeError
| TypeError
| OSError
| RuntimeError
| MemoryError
| KeyboardInterrupt.

Definition exn_eqb (a b : exn) : bool :=
  match a, b with
  | SystemError, SystemError | ValueError, ValueError
  | UnicodeDecodeError, UnicodeDecodeError
  | UnicodeEncodeError, UnicodeEncodeError
  | OverflowError, OverflowError | AttributeError, AttributeError
  | TypeError, TypeError | OSError, OSError | RuntimeError, RuntimeError
  | MemoryError, MemoryError | KeyboardInterrupt, KeyboardInterrupt => true
  | _, _ => false
  end.

(** [issubclass e c]: an exception of class [e] is an instance of [c].
    [UnicodeDecodeError] and [UnicodeEncodeError] derive from [ValueError]
    (through [UnicodeError]). *)
Definition issubclass (e c : exn) : bool :=
  exn_eqb e c ||
  match e, c with
  | UnicodeDecodeError, ValueError => true
  | UnicodeEncodeError, ValueError => true
  | _, _ => false
  end.

(** [except (c1, c2, ...)] catches [e] when it is an instance of one of
    the listed classes. *)
Definition catches (classes : list exn) (e : exn) : bool :=
  existsb (issubclass e) classes.

(** [except Exception]. *)
Definition is_Exception (e : exn) : bool :=
  match e with
  | KeyboardInterrupt => false
  | _ => true
  end.

(** The tuple the converter guards its reads of PST data with:
    [except (SystemError, ValueError, UnicodeDecodeError, OverflowError)]. *)
Definition pst_read_errors : list exn :=
  [SystemError; ValueError; UnicodeDecodeError; OverflowError].

Inductive outcome (A : Type) : Type :=
| Ok (a : A)
| Raise (e : exn).
Arguments Ok {A} a.
Arguments Raise {A} e.

(* ===================================================================== *)
(** ** Python strings and bytes *)
(* ===================================================================== *)

(** A [str] is a sequence of Unicode code points. *)
Definition pystr : Type := list N.
Definition bytes : Type := list Byte.byte.

(** String literals of the source. *)
Definition lit (s : string) : pystr :=
  List.map N_of_ascii (list_ascii_of_string s).

(** Truth value of a [str]: non-empty. *)
Definition truthy_str (s : pystr) : bool :=
  match s with [] => false | _ :: _ => true end.

(** Truth value of an optional value ([None] is false). *)
Definition truthy_opt {A} (truthy : A -> bool) (v : option A) : bool :=
  match v with Some a => truthy a | None => false end.

(** [v or d] for an optional string [v] and a string [d]. *)
Definition or_str (v : option pystr) (d : pystr) : pystr :=
  match v with
  | Some s => if truthy_str s then s else d
  | None => d
  end.

(** [v or 0] for an optional integer. *)
Definition or_int (v : option Z) (d : Z) : Z :=
  match v with
  | Some z => if z =? 0 then d else z
  | None => d
  end.

(** [str.isspace] on one code point: the Unicode white space of CPython
    ([_PyUnicode_IsWhitespace]); also the class [\s] of [re] on [str]. *)
Definition py_isspace (c : N) : bool :=
  (((9 <=? c) && (c <=? 13)) || ((28 <=? c) && (c <=? 32)) ||
   (c =? 133) || (c =? 160) || (c =? 5760) ||
   ((8192 <=? c) && (c <=? 8202)) || (c =? 8232) || (c =? 8233) ||
   (c =? 8239) || (c =? 8287) || (c =? 12288))%N.

Fixpoint lstrip (p : N -> bool) (s : pystr) : pystr :=
  match s with
  | c :: s' => if p c then lstrip p s' else s
  | [] => []
  end.

Definition rstrip (p : N -> bool) (s : pystr) : pystr :=
  rev (lstrip p (rev s)).

(** [s.strip()] *)
Definition strip (s : pystr) : pystr := rstrip py_isspace (lstrip py_isspace s).

(** [s.strip(chars)] *)
Definition strip_chars (chars : pystr) (s : pystr) : pystr :=
  let p c := existsb (N.eqb c) chars in
  rstrip p (lstrip p s).

(** [s.encode('ascii')] raises [UnicodeEncodeError] on a code point above
    127; [b.decode('ascii')] of the result gives [s] back. *)
Definition is_ascii (s : pystr) : bool := forallb (fun c => (c <? 128)%N) s.

Definition encode_ascii (s : pystr) : outcome pystr :=
  if is_ascii s then Ok s else Raise UnicodeEncodeError.

(** [str(i)] for an integer, as an f-string renders it. *)
Definition str_of_Z (z : Z) : pystr := lit (NilZero.string_of_int (Z.to_int z)).

Fixpoint starts_with (pfx s : pystr) : bool :=
  match pfx, s with
  | [], _ => true
  | p :: pfx', c :: s' => (p =? c)%N && starts_with pfx' s'
  | _ :: _, [] => false
  end.

(** [sep in s] *)
Fixpoint contains (sep s : pystr) : bool :=
  starts_with sep s ||
  match s with
  | [] => false
  | _ :: s' => contains sep s'
  end.

(** [s.split(sep)] for a non-empty separator: [skip] counts the code
    points of a separator just matched that are still to be dropped, [cur]
    holds the current piece, reversed. *)
Fixpoint split_aux (sep : pystr) (skip : nat) (cur : pystr) (s : pystr)
  : list pystr :=
  match s with
  | [] => [rev cur]
  | c :: s' =>
      match skip with
      | S k => split_aux sep k cur s'
      | O =>
          if starts_with sep s
          then rev cur :: split_aux sep (List.length sep - 1) [] s'
          else split_aux sep 0 (c :: cur) s'
      end
  end.

Definition split (sep s : pystr) : list pystr := split_aux sep 0 [] s.

(** [', '.join(parts)] and the like. *)
Fixpoint join (sep : pystr) (parts : list pystr) : pystr :=
  match parts with
  | [] => []
  | [p] => p
  | p :: rest => p ++ sep ++ join sep rest
  end.

(* ===================================================================== *)
(** ** The fragment of [re] the converter uses *)
(* ===================================================================== *)

(** Patterns are written as the opcode sequence [sre] compiles them to;
    the converter's patterns repeat single-character classes only.  All
    patterns are compiled with [re.MULTILINE | re.IGNORECASE]. *)
Module Re.

Inductive opcode : Type :=
| AT_BEGINNING_LINE                  (* ^ under MULTILINE *)
| LITERAL_IGNORE (c : N)             (* one literal under IGNORECASE *)
| MAX_REPEAT_0 (cls : N -> bool)     (* cls*  *)
| MAX_REPEAT_1 (cls : N -> bool)     (* cls+  *)
| MIN_REPEAT_1 (cls : N -> bool)     (* cls+? *)
| MARK (i : nat).                    (* group boundary: 2g-2 opens g, 2g-1 closes it *)

Definition pattern : Type := list opcode.

(** Marks: offsets from the start of the match, most recent first. *)
Definition marks : Type := list (nat * nat).

(** Lower case of the letters A-Z; the literals of the converter's
    patterns have no other case variant. *)
Definition lower (c : N) : N :=
  if ((65 <=? c) && (c <=? 90))%N then (c + 32)%N else c.

Definition same_ignore_case (c x : N) : bool := (lower c =? lower x)%N.

(** [\s] *)
Definition category_space : N -> bool := py_isspace.

(** [.] without DOTALL: anything but a line feed. *)
Definition any : N -> bool := fun c => negb (c =? 10)%N.

(** [prev] is the code point before the current position, if any. *)
Definition at_beginning_line (prev : option N) : bool :=
  match prev with
  | None => true
  | Some c => (c =? 10)%N
  end.

(** Greedy repetition: take as many as possible, give back one at a
    time until the rest of the pattern [k] matches. *)
Fixpoint max_repeat (cls : N -> bool)
         (k : option N -> pystr -> nat -> option marks)
         (prev : option N) (s : pystr) (pos : nat) : option marks :=
  match s with
  | c :: s' =>
      if cls c then
        match max_repeat cls k (Some c) s' (S pos) with
        | Some r => Some r
        | None => k prev s pos
        end
      else k prev s pos
  | [] => k prev s pos
  end.

(** Lazy repetition: try the rest of the pattern first, take one more
    only when it fails. *)
Fixpoint min_repeat (cls : N -> bool)
         (k : option N -> pystr -> nat -> option marks)
         (prev : option N) (s : pystr) (pos : nat) : option marks :=
  match k prev s pos with
  | Some r => Some r
  | None =>
      match s with
      | c :: s' => if cls c then min_repeat cls k (Some c) s' (S pos) else None
      | [] => None
      end
  end.

Definition one (cls : N -> bool)
           (k : option N -> pystr -> nat -> option marks)
           (prev : option N) (s : pystr) (pos : nat) : option marks :=
  match s with
  | c :: s' => if cls c then k (Some c) s' (S pos) else None
  | [] => None
  end.

(** Match [pat] at the current position. *)
Fixpoint sre_match (pat : pattern) (mk : marks)
         (prev : option N) (s : pystr) (pos : nat) {struct pat}
  : option marks :=
  match pat with
  | [] => Some mk
  | AT_BEGINNING_LINE :: pat' =>
      if at_beginning_line prev then sre_match pat' mk prev s pos else None
  | LITERAL_IGNORE c :: pat' =>
      one (same_ignore_case c) (sre_match pat' mk) prev s pos
  | MAX_REPEAT_0 cls :: pat' =>
      max_repeat cls (sre_match pat' mk) prev s pos
  | MAX_REPEAT_1 cls :: pat' =>
      one cls (max_repeat cls (sre_match pat' mk)) prev s pos
  | MIN_REPEAT_1 cls :: pat' =>
      one cls (min_repeat cls (sre_match pat' mk)) prev s pos
  | MARK i :: pat' =>
      sre_match pat' ((i, pos) :: mk) prev s pos
  end.

(** A match object: the text from the start of the match on, and the
    marks set while matching. *)
Record match_object : Type := {
  m_text : pystr;
  m_marks : marks
}.

(** [re.search]: the first position, left to right, where the pattern
    matches. *)
Fixpoint search_from (pat : pattern) (prev : option N) (s : pystr)
  : option match_object :=
  match sre_match pat [] prev s 0 with
  | Some mk => Some {| m_text := s; m_marks := mk |}
  | None =>
      match s with
      | [] => None
      | c :: s' => search_from pat (Some c) s'
      end
  end.

Definition search (pat : pattern) (text : pystr) : option match_object :=
  search_from pat None text.

Fixpoint mark (mk : marks) (i : nat) : nat :=
  match mk with
  | [] => 0%nat
  | (j, p) :: mk' => if Nat.eqb i j then p else mark mk' i
  end.

(** [m.group(g)] for a group that took part in the match. *)
Definition group (m : match_object) (g : nat) : pystr :=
  let b := mark (m_marks m) (2 * g - 2) in
  let e := mark (m_marks m) (2 * g - 1) in
  firstn (e - b) (skipn b (m_text m)).

Definition literal (s : string) : pattern :=
  List.map LITERAL_IGNORE (lit s).

(** [r'^From:\s*(.+?)\s*<(.+?)>'] *)
Definition from_pattern : pattern :=
  [AT_BEGINNING_LINE] ++ literal "From:" ++
  [MAX_REPEAT_0 category_space;
   MARK 0; MIN_REPEAT_1 any; MARK 1;
   MAX_REPEAT_0 category_space] ++ literal "<" ++
  [MARK 2; MIN_REPEAT_1 any; MARK 3] ++ literal ">".

(** [r'^Date:\s*(.+)'] *)
Definition date_pattern : pattern :=
  [AT_BEGINNING_LINE] ++ literal "Date:" ++
  [MAX_REPEAT_0 category_space;
   MARK 0; MAX_REPEAT_1 any; MARK 1].

End Re.

(* ===================================================================== *)
(** ** Output records *)
(* ===================================================================== *)

(** The MIME objects the converter builds: [MIMEText(text, subtype,
    charset)], [MIMEMultipart(subtype)] with its attached parts, and
    [MIMEBase(maintype, subtype)] with its payload, whether
    [encoders.encode_base64] was applied, and its [Content-Disposition]. *)
#[warnings="-register-all"]
Inductive mime : Type :=
| MIMEText (text : pystr) (subtype charset : string)
| MIMEMultipart (subtype : string) (parts : list mime)
| MIMEBase (maintype subtype : string) (payload : bytes)
           (base64 : bool) (content_disposition : pystr).

(** An [email.message.Message]: its MIME root, the headers of the root
    in order (those its constructor set, then those set with
    [msg[name] = value]), and the envelope line given to
    [set_unixfrom]. *)
Record email_message : Type := {
  root : mime;
  headers : list (string * pystr);
  unixfrom : option pystr
}.

Definition set_header (name : string) (value : pystr) (msg : email_message)
  : email_message :=
  {| root := root msg;
     headers := headers msg ++ [(name, value)];
     unixfrom := unixfrom msg |}.

Definition set_unixfrom (line : pystr) (msg : email_message) : email_message :=
  {| root := root msg; headers := headers msg; unixfrom := Some line |}.

(** One entry of the list [extract_attachments] returns:
    [{'filename': ..., 'size': ..., 'data': ...}]. *)
Record att_info : Type := {
  filename : pystr;
  size : Z;
  data : option bytes
}.

(** [len(data) if data else 0] *)
Definition actual_size (d : option bytes) : Z :=
  match d with
  | Some b => Z.of_nat (List.length b)
  | None => 0
  end.

Definition truthy_bytes (b : bytes) : bool :=
  match b with [] => false | _ :: _ => true end.

(* ===================================================================== *)
(** ** What a run leaves behind: logger output and mbox operations *)
(* ===================================================================== *)

(** One constructor per logger call of the source, carrying the values
    its message interpolates. *)
Inductive log_record : Type :=
| Debug_message_has_attachments (attachment_count : Z)
| Debug_read_buffer_failed (filename : pystr) (e : exn)
| Debug_get_data_failed (filename : pystr) (e : exn)
| Warning_reported_size_but_empty (filename : pystr) (size : Z)
| Debug_found_attachment (filename : pystr) (actual_size : Z)
| Warning_failed_to_extract_attachment (i : Z) (e : exn)
| Warning_failed_to_extract_attachments (e : exn)
| Debug_failed_to_read_attribute (e : exn)
| Error_failed_to_convert_message (e : exn)
| Debug_failed_to_read_recipients (e : exn)
| Info_processing_messages
| Info_processed_emails (processed : Z)
| Error_failed_to_process_message (message_count : Z) (e : exn)
| Info_finished_processing (message_count : Z)
| Error_failed_to_process_messages (e : exn)
| Info_starting_conversion
| Info_opened_pst
| Info_conversion_completed (processed failed found extracted : Z)
| Error_conversion_failed (e : exn).

Inductive event : Type :=
| Log (r : log_record)
| Mbox_lock
| Mbox_add (msg : email_message)
| Mbox_flush
| Mbox_unlock
| Mbox_close.

(** The converter object ([self]) with the counters of [__init__], and
    around it the chronological trace of logger calls and mbox operations
    and the records appended to the mbox file so far. *)
Record world : Type := {
  processed_emails : Z;
  failed_emails : Z;
  attachments_found : Z;
  attachments_extracted : Z;
  attachment_bytes : Z;
  trace : list event;
  mbox : list email_message
}.

(** The state [__init__] sets up, with an empty output file. *)
Definition fresh : world :=
  {| processed_emails := 0; failed_emails := 0; attachments_found := 0;
     attachments_extracted := 0; attachment_bytes := 0;
     trace := []; mbox := [] |}.

(* ===================================================================== *)
(** ** State and exceptions *)
(* ===================================================================== *)

(** A computation runs from a world to an outcome and the world it
    leaves; mutations made before an exception is raised stay. *)
Definition M (A : Type) : Type := world -> outcome A * world.

Definition ret {A} (a : A) : M A := fun w => (Ok a, w).

Definition raise {A} (e : exn) : M A := fun w => (Raise e, w).

Definition bind {A B} (m : M A) (f : A -> M B) : M B :=
  fun w =>
    match m w with
    | (Ok a, w') => f a w'
    | (Raise e, w') => (Raise e, w')
    end.

Notation "x <- m ;; k" := (bind m (fun x => k))
  (at level 61, m at next level, right associativity).
Notation "m ;; k" := (bind m (fun _ => k))
  (at level 61, right associativity).

(** The result of a call into the PST reader or the file system. *)
Definition lift {A} (r : outcome A) : M A := fun w => (r, w).

(** Run [m] and hand its outcome to the caller as a value: the body of a
    [try] whose handlers are written out by the caller. *)
Definition attempt {A} (m : M A) : M (outcome A) :=
  fun w => let (r, w') := m w in (Ok r, w').

(** [try: m  except classes as e: handler e] *)
Definition try_except {A} (m : M A) (guard : exn -> bool) (handler : exn -> M A)
  : M A :=
  r <- attempt m ;;
  match r with
  | Ok a => ret a
  | Raise e => if guard e then handler e else raise e
  end.

(** [try: m  finally: cleanup] *)
Definition try_finally {A} (m : M A) (cleanup : M unit) : M A :=
  r <- attempt m ;;
  cleanup ;;
  lift r.

Definition emit (ev : event) : M unit :=
  fun w =>
    (Ok tt,
     {| processed_emails := processed_emails w;
        failed_emails := failed_emails w;
        attachments_found := attachments_found w;
        attachments_extracted := attachments_extracted w;
        attachment_bytes := attachment_bytes w;
        trace := trace w ++ [ev];
        mbox := mbox w |}).

(** [self.logger.<level>(...)] *)
Definition logger (r : log_record) : M unit := emit (Log r).

Definition get_processed_emails : M Z := fun w => (Ok (processed_emails w), w).

Definition add_processed_emails (n : Z) : M unit :=
  fun w =>
    (Ok tt,
     {| processed_emails := processed_emails w + n;
        failed_emails := failed_emails w;
        attachments_found := attachments_found w;
        attachments_extracted := attachments_extracted w;
        attachment_bytes := attachment_bytes w;
        trace := trace w;
        mbox := mbox w |}).

Definition add_failed_emails (n : Z) : M unit :=
  fun w =>
    (Ok tt,
     {| processed_emails := processed_emails w;
        failed_emails := failed_emails w + n;
        attachments_found := attachments_found w;
        attachments_extracted := attachments_extracted w;
        attachment_bytes := attachment_bytes w;
        trace := trace w;
        mbox := mbox w |}).

Definition add_attachments_found (n : Z) : M unit :=
  fun w =>
    (Ok tt,
     {| processed_emails := processed_emails w;
        failed_emails := failed_emails w;
        attachments_found := attachments_found w + n;
        attachments_extracted := attachments_extracted w;
        attachment_bytes := attachment_bytes w;
        trace := trace w;
        mbox := mbox w |}).

Definition add_attachments_extracted (n : Z) : M unit :=
  fun w =>
    (Ok tt,
     {| processed_emails := processed_emails w;
        failed_emails := failed_emails w;
        attachments_found := attachments_found w;
        attachments_extracted := attachments_extracted w + n;
        attachment_bytes := attachment_bytes w;
        trace := trace w;
        mbox := mbox w |}).

Definition add_attachment_bytes (n : Z) : M unit :=
  fun w =>
    (Ok tt,
     {| processed_emails := processed_emails w;
        failed_emails := failed_emails w;
        attachments_found := attachments_found w;
        attachments_extracted := attachments_extracted w;
        attachment_bytes := attachment_bytes w + n;
        trace := trace w;
        mbox := mbox w |}).

(** The file behind [mbox_file.add]: the record is appended. *)
Definition append_record (msg : email_message) : M unit :=
  fun w =>
    (Ok tt,
     {| processed_emails := processed_emails w;
        failed_emails := failed_emails w;
        attachments_found := attachments_found w;
        attachments_extracted := attachments_extracted w;
        attachment_bytes := attachment_bytes w;
        trace := trace w;
        mbox := mbox w ++ [msg] |}).

(* ===================================================================== *)
(** ** Objects of the PST reader *)
(* ===================================================================== *)

(** Reading an attribute of a reader object gives a value, [None]
    ([Ok None]), or raises; a missing attribute raises [AttributeError]. *)
Definition attr (T : Type) : Type := outcome (option T).

(** [getattr(obj, name, default)]: [AttributeError] turns into the
    default, any other exception propagates. *)
Definition getattr {O T} (obj : O) (name : O -> attr T) (default : option T)
  : outcome (option T) :=
  match name obj with
  | Raise AttributeError => Ok default
  | r => r
  end.

(** [hasattr(obj, name)] *)
Definition hasattr {O T} (obj : O) (name : O -> attr T) : outcome bool :=
  match name obj with
  | Ok _ => Ok true
  | Raise AttributeError => Ok false
  | Raise e => Raise e
  end.

Module Attachment.
(** [read_buffer] and [get_data] are methods; [None] stands for a
    handle that lacks the method. *)
Record t : Type := {
  name : attr pystr;
  size : attr Z;
  read_buffer : option (Z -> outcome (option bytes));
  get_data : option (outcome (option bytes));
  data : attr bytes
}.
End Attachment.

Module Recipient.
Record t : Type := {
  email_address : attr pystr;
  name : attr pystr
}.
End Recipient.

Module Folder.
Record t : Type := {
  name : attr pystr
}.
End Folder.

Module Message.
Record t (datetime : Type) : Type := {
  number_of_attachments : attr Z;
  get_attachment : Z -> outcome (option Attachment.t);
  plain_text_body : attr pystr;
  html_body : attr pystr;
  subject : attr pystr;
  sender_name : attr pystr;
  sender_email_address : attr pystr;
  transport_headers : attr pystr;
  delivery_time : attr datetime;
  recipients : attr (list Recipient.t);
  folder : attr Folder.t
}.
End Message.

(** [pst_archive.messages()]: the generator yields finitely many messages
    and then stops, or raises after them. *)
Record pff_archive (datetime : Type) : Type := {
  messages : list (Message.t datetime);
  messages_error : option exn
}.

(** The [mailbox.mbox] handle: which of its operations fail. *)
Record mbox_file : Type := {
  add_error : email_message -> option exn;
  flush_error : option exn;
  unlock_error : option exn;
  close_error : option exn
}.

Definition or_raise (err : option exn) : M unit :=
  match err with
  | Some e => raise e
  | None => ret tt
  end.

(** [range(n)] *)
Definition range (n : Z) : list Z :=
  List.map Z.of_nat (seq 0 (Z.to_nat n)).

Definition quote : pystr := [34%N].
Definition newline : pystr := [10%N].

(** The headers a MIME object carries when its constructor returns:
    [MIMEBase.__init__] adds [Content-Type] and sets [MIME-Version];
    setting a payload with the charset utf-8, as [MIMEText] does, and
    [encoders.encode_base64] add [Content-Transfer-Encoding]. *)
Definition constructor_headers (m : mime) : list (string * pystr) :=
  match m with
  | MIMEText _ subtype charset =>
      [("Content-Type"%string,
        lit "text/" ++ lit subtype ++ lit "; charset=" ++ quote
          ++ lit charset ++ quote);
       ("MIME-Version"%string, lit "1.0");
       ("Content-Transfer-Encoding"%string, lit "base64")]
  | MIMEMultipart subtype _ =>
      [("Content-Type"%string, lit "multipart/" ++ lit subtype);
       ("MIME-Version"%string, lit "1.0")]
  | MIMEBase maintype subtype _ base64 content_disposition =>
      [("Content-Type"%string, lit maintype ++ lit "/" ++ lit subtype);
       ("MIME-Version"%string, lit "1.0")]
      ++ (if base64
          then [("Content-Transfer-Encoding"%string, lit "base64")]
          else [])
      ++ [("Content-Disposition"%string, content_disposition)]
  end.

(** The message object as the constructor leaves it. *)
Definition new_message (root : mime) : email_message :=
  {| root := root; headers := constructor_headers root; unixfrom := None |}.

(* ===================================================================== *)
(** ** The converter *)
(* ===================================================================== *)

(** Library calls the converter makes on values it does not build itself:
    [Header(name, 'utf-8').encode()], [dt.strftime(fmt)], [dt.isoformat()],
    [datetime.now()] and [email.utils.parsedate_to_datetime].
    [header_encode name] is what the first of them returns; on a name
    that utf-8 cannot encode (see [utf8_encodable] below) the call raises
    [UnicodeEncodeError] instead. *)
Record library (datetime : Type) : Type := {
  header_encode : pystr -> pystr;
  strftime : datetime -> string -> outcome pystr;
  isoformat : datetime -> pystr;
  now : datetime;
  parsedate_to_datetime : pystr -> outcome datetime
}.

Section PSTToMboxConverter.

Context {datetime : Type}.

Variable py : library datetime.

Abbreviation message := (Message.t datetime).

(** *** [format_email_address], lines 96-112 *)

Definition format_email_address (address : pystr) (name : option pystr)
  : pystr :=
  if negb (truthy_str address) then []
  else
    match name with
    | Some name =>
        if truthy_str name && truthy_str (strip name) then
          match encode_ascii name with
          | Ok ascii_name => ascii_name ++ lit " <" ++ address ++ lit ">"
          | Raise _ =>
              let encoded_name := header_encode py name in
              encoded_name ++ lit " <" ++ address ++ lit ">"
          end
        else address
    | None => address
    end.

(** *** [safe_get_attr], lines 172-179 *)

Definition safe_get_attr {O T} (obj : O) (name : O -> attr T)
           (default : option T) : M (option T) :=
  try_except
    (value <- lift (getattr obj name default) ;;
     ret (match value with
          | Some _ => value
          | None => default
          end))
    (catches pst_read_errors)
    (fun e =>
       logger (Debug_failed_to_read_attribute e) ;;
       ret default).

(** *** [extract_attachments], lines 114-170 *)

Definition default_filename (i : Z) : pystr := lit "attachment_" ++ str_of_Z i.

(** Lines 126-164, the body of the [try] inside the loop, for index [i]:
    [None] when [get_attachment] hands back nothing, else the entry
    appended to [attachments]. *)
Definition extract_attachment (pst_message : message) (i : Z)
  : M (option att_info) :=
  attachment <- lift (Message.get_attachment pst_message i) ;;
  match attachment with
  | None => ret None
  | Some attachment =>
      fn <- safe_get_attr attachment Attachment.name
              (Some (default_filename i)) ;;
      let filename := or_str fn (default_filename i) in
      sz <- safe_get_attr attachment Attachment.size (Some 0) ;;
      let size := or_int sz 0 in
      let data : option bytes := None in
      (* Method 1: read_buffer *)
      data <-
        match data, Attachment.read_buffer attachment with
        | None, Some read_buffer =>
            if size >? 0 then
              try_except (lift (read_buffer size)) is_Exception
                (fun e =>
                   logger (Debug_read_buffer_failed filename e) ;;
                   ret data)
            else ret data
        | _, _ => ret data
        end ;;
      (* Method 2: get_data *)
      data <-
        match data, Attachment.get_data attachment with
        | None, Some get_data =>
            try_except (lift get_data) is_Exception
              (fun e =>
                 logger (Debug_get_data_failed filename e) ;;
                 ret data)
        | _, _ => ret data
        end ;;
      (* Method 3: data property *)
      data <-
        match data with
        | None => safe_get_attr attachment Attachment.data None
        | Some _ => ret data
        end ;;
      let actual_size := actual_size data in
      let att_info :=
        {| filename := filename; size := size; data := data |} in
      (if (actual_size =? 0) && (size >? 0) then
         logger (Warning_reported_size_but_empty filename size)
       else
         add_attachments_extracted 1 ;;
         add_attachment_bytes actual_size ;;
         logger (Debug_found_attachment filename actual_size)) ;;
      ret (Some att_info)
  end.

(** Lines 124-166, [for i in range(attachment_count)]: the entries
    appended so far, and the exception that ended the loop early, if one
    got past the inner [except]. *)
Fixpoint for_each_attachment (pst_message : message) (indices : list Z)
         (attachments : list att_info) : M (list att_info * option exn) :=
  match indices with
  | [] => ret (attachments, None)
  | i :: indices' =>
      r <- attempt (extract_attachment pst_message i) ;;
      match r with
      | Ok None => for_each_attachment pst_message indices' attachments
      | Ok (Some att_info) =>
          for_each_attachment pst_message indices' (attachments ++ [att_info])
      | Raise e =>
          if catches pst_read_errors e then
            logger (Warning_failed_to_extract_attachment i e) ;;
            for_each_attachment pst_message indices' attachments
          else ret (attachments, Some e)
      end
  end.

(** The outer [try] of lines 118-168 and the [return] of line 170. *)
Definition extract_attachments (pst_message : message) : M (list att_info) :=
  r <- attempt
         (has <- lift (hasattr pst_message (@Message.number_of_attachments _)) ;;
          if has : bool then
            attachment_count <- lift (Message.number_of_attachments pst_message) ;;
            match attachment_count with
            | None => raise TypeError     (* None > 0 *)
            | Some attachment_count =>
                (if attachment_count >? 0 then
                   logger (Debug_message_has_attachments attachment_count) ;;
                   add_attachments_found attachment_count
                 else ret tt) ;;
                for_each_attachment pst_message (range attachment_count) []
            end
          else ret ([], None)) ;;
  match r with
  | Ok (attachments, None) => ret attachments
  | Ok (attachments, Some e) =>
      if is_Exception e then
        logger (Warning_failed_to_extract_attachments e) ;;
        ret attachments
      else raise e
  | Raise e =>
      if is_Exception e then
        logger (Warning_failed_to_extract_attachments e) ;;
        ret []
      else raise e
  end.

(** *** [convert_pst_message_to_email], lines 181-316 *)

(** Lines 244-248: the sender taken from the transport headers when the
    structured address is missing. *)
Definition recover_sender (sender_name sender_email transport_headers : option pystr)
  : option pystr * option pystr :=
  if negb (truthy_opt truthy_str sender_email)
     && truthy_opt truthy_str transport_headers then
    match transport_headers with
    | Some transport_headers =>
        match Re.search Re.from_pattern transport_headers with
        | Some sender_match =>
            (Some (strip_chars quote (Re.group sender_match 1)),
             Some (Re.group sender_match 2))
        | None => (sender_name, sender_email)
        end
    | None => (sender_name, sender_email)
    end
  else (sender_name, sender_email).

(** Lines 253-260 and again 283-290, the delivery time: the structured
    field, else the [Date:] line of the transport headers when it parses. *)
Definition read_delivery_time (pst_message : message)
           (transport_headers : option pystr) : M (option datetime) :=
  delivery_time <- safe_get_attr pst_message (@Message.delivery_time _) None ;;
  match delivery_time, transport_headers with
  | None, Some headers =>
      if truthy_str headers then
        match Re.search Re.date_pattern headers with
        | Some date_match =>
            try_except
              (t <- lift (parsedate_to_datetime py (strip (Re.group date_match 1))) ;;
               ret (Some t))
              is_Exception
              (fun _ => ret None)
        | None => ret delivery_time
        end
      else ret delivery_time
  | _, _ => ret delivery_time
  end.

Definition unix_format : string := "%a %b %d %H:%M:%S %Y".
Definition rfc2822_format : string := "%a, %d %b %Y %H:%M:%S %z".

(** Lines 271-275, [for recipient in pst_message.recipients]: the
    formatted addresses appended so far and the exception that ended the
    loop, if any. *)
Fixpoint for_each_recipient (rs : list Recipient.t) (recipients : list pystr)
  : M (list pystr * option exn) :=
  match rs with
  | [] => ret (recipients, None)
  | recipient :: rs' =>
      r <- attempt
             (recipient_email <-
                safe_get_attr recipient Recipient.email_address (Some []) ;;
              recipient_name <-
                safe_get_attr recipient Recipient.name (Some []) ;;
              ret (match recipient_email with
                   | Some address =>
                       if truthy_str address
                       then recipients ++ [format_email_address address recipient_name]
                       else recipients
                   | None => recipients
                   end)) ;;
      match r with
      | Ok recipients' => for_each_recipient rs' recipients'
      | Raise e => ret (recipients, Some e)
      end
  end.

(** Lines 268-277: the recipients, as far as they can be read. *)
Definition read_recipients (pst_message : message) : M (list pystr) :=
  r <- attempt
         (has <- lift (hasattr pst_message (@Message.recipients _)) ;;
          if has : bool then
            rs <- lift (Message.recipients pst_message) ;;
            match rs with
            | Some (r0 :: rs') => for_each_recipient (r0 :: rs') []
            | _ => ret ([], None)
            end
          else ret ([], None)) ;;
  match r with
  | Ok (recipients, None) => ret recipients
  | Ok (recipients, Some e) =>
      if catches pst_read_errors e then
        logger (Debug_failed_to_read_recipients e) ;;
        ret recipients
      else raise e
  | Raise e =>
      if catches pst_read_errors e then
        logger (Debug_failed_to_read_recipients e) ;;
        ret []
      else raise e
  end.

(** Line 303:
    [transport_headers.split('Message-ID:')[1].split('\n')[0].strip()] *)
Definition message_id (transport_headers : pystr) : pystr :=
  strip (nth 0 (split newline
                  (nth 1 (split (lit "Message-ID:") transport_headers) []))
             []).

(** Lines 191-232: the MIME structure chosen from the bodies and the
    extracted attachments, when the constructors return.  ([MIMEText]
    raises [UnicodeEncodeError] on a text utf-8 cannot encode; the method
    then returns no record, and what is proved of the structure is proved
    of the records it returns.) *)
Definition message_structure (body_text body_html : pystr)
           (attachments : list att_info) : mime :=
  match attachments with
  | _ :: _ =>
      (* Message with attachments - use multipart/mixed *)
      MIMEMultipart "mixed"
        ((if truthy_str body_html && truthy_str body_text then
            MIMEMultipart "alternative"
              [MIMEText body_text "plain" "utf-8";
               MIMEText body_html "html" "utf-8"]
          else if truthy_str body_html then
            MIMEText body_html "html" "utf-8"
          else
            MIMEText (or_str (Some body_text) (lit "(No content)"))
                     "plain" "utf-8")
         :: flat_map
              (fun att =>
                 match data att with
                 | Some payload =>
                     if truthy_bytes payload then
                       [MIMEBase "application" "octet-stream" payload true
                          (lit "attachment; filename=" ++ quote
                             ++ filename att ++ quote)]
                     else []
                 | None => []
                 end)
              attachments)
  | [] =>
      if truthy_str body_html && truthy_str body_text then
        (* Both text and HTML - use multipart/alternative *)
        MIMEMultipart "alternative"
          [MIMEText body_text "plain" "utf-8";
           MIMEText body_html "html" "utf-8"]
      else if truthy_str body_html then
        (* HTML only *)
        MIMEText body_html "html" "utf-8"
      else
        (* Plain text only *)
        MIMEText (or_str (Some body_text) (lit "(No content)"))
                 "plain" "utf-8"
  end.

(** Lines 234-312: the headers and the envelope line set on [msg]. *)
Definition add_headers (pst_message : message) (folder_path : option pystr)
           (msg : email_message) : M email_message :=
  sj <- safe_get_attr pst_message (@Message.subject _) (Some []) ;;
  let subject := or_str sj (lit "(No Subject)") in
  let msg := set_header "Subject" subject msg in
  (* Sender information *)
  sender_name <- safe_get_attr pst_message (@Message.sender_name _) (Some []) ;;
  sender_email <-
    safe_get_attr pst_message (@Message.sender_email_address _) (Some []) ;;
  transport_headers <-
    safe_get_attr pst_message (@Message.transport_headers _) (Some []) ;;
  let (sender_name, sender_email) :=
    recover_sender sender_name sender_email transport_headers in
  msg <-
    match sender_email with
    | Some (c :: address') =>
        let sender_email := c :: address' in
        let msg :=
          set_header "From" (format_email_address sender_email sender_name) msg in
        (* Set mbox unix from line *)
        delivery_time <- read_delivery_time pst_message transport_headers ;;
        unix_date <-
          lift (match delivery_time with
                | Some delivery_time => strftime py delivery_time unix_format
                | None => strftime py (now py) unix_format
                end) ;;
        ret (set_unixfrom
               (lit "From " ++ sender_email ++ lit " " ++ unix_date) msg)
    | _ => ret msg
    end ;;
  (* Recipients *)
  recipients <- read_recipients pst_message ;;
  let msg :=
    match recipients with
    | _ :: _ => set_header "To" (join (lit ", ") recipients) msg
    | [] => msg
    end in
  (* Date *)
  delivery_time <- read_delivery_time pst_message transport_headers ;;
  msg <-
    match delivery_time with
    | Some delivery_time =>
        try_except
          (d <- lift (strftime py delivery_time rfc2822_format) ;;
           ret (set_header "Date" d msg))
          is_Exception
          (fun _ => ret (set_header "Date" (isoformat py delivery_time) msg))
    | None =>
        d <- lift (strftime py (now py) rfc2822_format) ;;
        ret (set_header "Date" d msg)
    end ;;
  (* Message ID *)
  let msg :=
    match transport_headers with
    | Some headers =>
        if truthy_str headers && contains (lit "Message-ID:") headers
        then set_header "Message-ID" (message_id headers) msg
        else msg
    | None => msg
    end in
  (* Add folder information as custom header *)
  let msg :=
    match folder_path with
    | Some path =>
        if truthy_str path then set_header "X-Folder" path msg else msg
    | None => msg
    end in
  ret msg.

Definition convert_pst_message_to_email (pst_message : message)
           (folder_path : option pystr) : M email_message :=
  try_except
    ((* Body content *)
     bt <- safe_get_attr pst_message (@Message.plain_text_body _) (Some []) ;;
     let body_text := or_str bt [] in
     bh <- safe_get_attr pst_message (@Message.html_body _) (Some []) ;;
     let body_html := or_str bh [] in
     (* Extract attachments *)
     attachments <- extract_attachments pst_message ;;
     (* Create appropriate message structure *)
     let msg :=
       new_message (message_structure body_text body_html attachments) in
     (* Add headers *)
     add_headers pst_message folder_path msg)
    is_Exception
    (fun e =>
       logger (Error_failed_to_convert_message e) ;;
       raise e).

(** *** [process_messages], lines 318-350 *)

(** Lines 328-333: the folder name of a message, ["Unknown"] when it
    cannot be read. *)
Definition folder_path_of (pst_message : message) : M (option pystr) :=
  let folder_path := Some (lit "Unknown") in
  try_except
    (has <- lift (hasattr pst_message (@Message.folder _)) ;;
     if has : bool then
       folder <- lift (Message.folder pst_message) ;;
       match folder with
       | Some folder => safe_get_attr folder Folder.name (Some (lit "Unknown"))
       | None => ret folder_path
       end
     else ret folder_path)
    (catches pst_read_errors)
    (fun _ => ret folder_path).

(** The first two statements of the [try] body of the loop over the
    messages: the folder name, then the record.  [built] is their
    outcome. *)
Definition build (pst_message : message) : M email_message :=
  folder_path <- folder_path_of pst_message ;;
  convert_pst_message_to_email pst_message folder_path.

Definition built (pst_message : message) : outcome email_message :=
  fst (build pst_message fresh).

(** [mbox_file.add(email_msg)] *)
Definition mbox_add (mbox_file : mbox_file) (email_msg : email_message)
  : M unit :=
  or_raise (add_error mbox_file email_msg) ;;
  emit (Mbox_add email_msg) ;;
  append_record email_msg.

(** Lines 327-341, the [try] body of the loop over the messages; it
    returns the new value of [message_count]. *)
Definition process_message (mbox_file : mbox_file) (pst_message : message)
           (message_count : Z) : M Z :=
  folder_path <- folder_path_of pst_message ;;
  email_msg <- convert_pst_message_to_email pst_message folder_path ;;
  mbox_add mbox_file email_msg ;;
  add_processed_emails 1 ;;
  let message_count := message_count + 1 in
  processed <- get_processed_emails ;;
  (if processed mod 100 =? 0 then logger (Info_processed_emails processed)
   else ret tt) ;;
  ret message_count.

(** Lines 325-345, [for pst_message in pst_archive.messages()] *)
Fixpoint for_each_message (mbox_file : mbox_file) (msgs : list message)
         (message_count : Z) : M Z :=
  match msgs with
  | [] => ret message_count
  | pst_message :: msgs' =>
      r <- attempt (process_message mbox_file pst_message message_count) ;;
      match r with
      | Ok message_count' => for_each_message mbox_file msgs' message_count'
      | Raise e =>
          if is_Exception e then
            add_failed_emails 1 ;;
            logger (Error_failed_to_process_message message_count e) ;;
            for_each_message mbox_file msgs' message_count
          else raise e
      end
  end.

Definition process_messages (pst_archive : pff_archive datetime)
           (mbox_file : mbox_file) : M unit :=
  try_except
    (logger Info_processing_messages ;;
     let message_count := 0 in
     message_count <-
       for_each_message mbox_file (messages pst_archive) message_count ;;
     or_raise (messages_error pst_archive) ;;
     logger (Info_finished_processing message_count))
    is_Exception
    (fun e => logger (Error_failed_to_process_messages e)).

(** *** [convert], lines 352-405 *)

(** What the run finds outside the converter: the result of
    [validate_files], of [PffArchive(path)], of [mailbox.mbox(path)], of
    [mbox_file.lock()], and of the [stat] of the output file that opens
    the statistics block.  Elapsed time and throughput are floating-point
    values that only go into log lines; they are left out. *)
Record environment : Type := {
  validate_files : outcome unit;
  PffArchive : outcome (pff_archive datetime);
  mailbox_mbox : outcome mbox_file;
  lock_error : option exn;
  statistics_error : option exn
}.

Definition open_pst_file (env : environment) : M (pff_archive datetime) :=
  try_except
    (pst_archive <- lift (PffArchive env) ;;
     logger Info_opened_pst ;;
     ret pst_archive)
    is_Exception
    (fun _ => raise RuntimeError).

Definition final_statistics : M unit :=
  fun w =>
    logger (Info_conversion_completed
              (processed_emails w) (failed_emails w)
              (attachments_found w) (attachments_extracted w)) w.

Definition convert (env : environment) : M bool :=
  try_except
    (logger Info_starting_conversion ;;
     (* Validate files *)
     lift (validate_files env) ;;
     (* Open PST file *)
     pst_archive <- open_pst_file env ;;
     (* Create mbox file *)
     mbox_file <- lift (mailbox_mbox env) ;;
     or_raise (lock_error env) ;;
     emit Mbox_lock ;;
     try_finally
       ((* Process all messages *)
        process_messages pst_archive mbox_file ;;
        (* Flush and close mbox file *)
        emit Mbox_flush ;;
        or_raise (flush_error mbox_file))
       (emit Mbox_unlock ;;
        or_raise (unlock_error mbox_file) ;;
        emit Mbox_close ;;
        or_raise (close_error mbox_file)) ;;
     (* Calculate and print final statistics *)
     or_raise (statistics_error env) ;;
     final_statistics ;;
     ret true)
    is_Exception
    (fun e =>
       logger (Error_conversion_failed e) ;;
       ret false).

End PSTToMboxConverter.

(* ===================================================================== *)
(** ** Reasoning about computations that only add to the world *)
(* ===================================================================== *)

(** Below the loop over the messages no method reads the converter's
    state: each one adds to the counters, to the trace and to the mbox
    file.  A [delta] records what is added. *)
Record delta : Type := {
  d_processed : Z;
  d_failed : Z;
  d_found : Z;
  d_extracted : Z;
  d_bytes : Z;
  d_trace : list event;
  d_mbox : list email_message
}.

Definition dzero : delta :=
  {| d_processed := 0; d_failed := 0; d_found := 0; d_extracted := 0;
     d_bytes := 0; d_trace := []; d_mbox := [] |}.

Definition dplus (a b : delta) : delta :=
  {| d_processed := d_processed a + d_processed b;
     d_failed := d_failed a + d_failed b;
     d_found := d_found a + d_found b;
     d_extracted := d_extracted a + d_extracted b;
     d_bytes := d_bytes a + d_bytes b;
     d_trace := d_trace a ++ d_trace b;
     d_mbox := d_mbox a ++ d_mbox b |}.

Definition after (w : world) (d : delta) : world :=
  {| processed_emails := processed_emails w + d_processed d;
     failed_emails := failed_emails w + d_failed d;
     attachments_found := attachments_found w + d_found d;
     attachments_extracted := attachments_extracted w + d_extracted d;
     attachment_bytes := attachment_bytes w + d_bytes d;
     trace := trace w ++ d_trace d;
     mbox := mbox w ++ d_mbox d |}.

(** [m] returns [r] and adds [d], whatever the world it starts from. *)
Definition writes {A} (m : M A) (r : outcome A) (d : delta) : Prop :=
  forall w, m w = (r, after w d).

(** [m] is such a computation, and its result and additions satisfy [P]. *)
Definition spec {A} (m : M A) (P : outcome A -> delta -> Prop) : Prop :=
  exists r d, writes m r d /\ P r d.

(** Events raised while messages are processed: logger calls other than
    the two that report the outcome of the run, and appended records. *)
Definition inner (ev : event) : bool :=
  match ev with
  | Log (Info_conversion_completed _ _ _ _) => false
  | Log (Error_conversion_failed _) => false
  | Log _ => true
  | Mbox_add _ => true
  | _ => false
  end.

(** Nothing but logger output. *)
Definition quiet (d : delta) : Prop :=
  d_processed d = 0 /\ d_failed d = 0 /\ d_found d = 0 /\
  d_extracted d = 0 /\ d_bytes d = 0 /\ d_mbox d = [] /\
  forallb inner (d_trace d) = true.

(** Logger output and attachment counters going up. *)
Definition attachments_only (d : delta) : Prop :=
  d_processed d = 0 /\ d_failed d = 0 /\ 0 <= d_found d /\
  0 <= d_extracted d /\ 0 <= d_bytes d /\ d_mbox d = [] /\
  forallb inner (d_trace d) = true.

(** [m] only logs, and its outcome satisfies [post]. *)
Definition quietly {A} (m : M A) (post : outcome A -> Prop) : Prop :=
  spec m (fun r d => quiet d /\ post r).

(** Lines 159-163: an appended entry counts as extracted unless its
    declared size is positive and no byte was recovered. *)
Definition counted (a : att_info) : bool :=
  negb ((actual_size (data a) =? 0) && (size a >? 0)).

Definition count_extracted (l : list att_info) : Z :=
  Z.of_nat (List.length (filter counted l)).

Definition total_bytes (l : list att_info) : Z :=
  fold_right Z.add 0 (List.map (fun a => actual_size (data a)) l).

(** The outcome, when it is a message, has the MIME root of [msg]. *)
Definition same_root (msg : email_message) (r : outcome email_message) : Prop :=
  match r with
  | Ok msg' => root msg' = root msg
  | Raise _ => True
  end.

(** What extracting the entries [l] adds: logger output, one extracted
    attachment per counted entry, and the bytes recovered. *)
Definition counts (l : list att_info) (d : delta) : Prop :=
  d_processed d = 0 /\ d_failed d = 0 /\ d_found d = 0 /\
  d_extracted d = count_extracted l /\ d_bytes d = total_bytes l /\
  d_mbox d = [] /\ forallb inner (d_trace d) = true.

(** The entry an iteration of the attachment loop appends, if any. *)
Definition appended (r : outcome (option att_info)) : list att_info :=
  match r with
  | Ok (Some a) => [a]
  | _ => []
  end.

(** The number of indices the attachment loop is set to enumerate. *)
Definition enumerated {datetime} (m : Message.t datetime) : Z :=
  match Message.number_of_attachments m with
  | Ok (Some n) => Z.of_nat (List.length (range n))
  | _ => 0
  end.

(** What [extract_attachments] adds, in terms of the list it returns. *)
Definition extraction {datetime} (m : Message.t datetime)
           (r : outcome (list att_info)) (d : delta) : Prop :=
  d_processed d = 0 /\ d_failed d = 0 /\ d_mbox d = [] /\
  forallb inner (d_trace d) = true /\
  d_found d = enumerated m /\ 0 <= d_extracted d /\ 0 <= d_bytes d /\
  forall attachments, r = Ok attachments ->
    d_extracted d = count_extracted attachments /\
    d_bytes d = total_bytes attachments.

(** The world [w'] is the world [w] with counters that did not go down
    and with more events, all raised while processing messages. *)
Definition grows (w w' : world) : Prop :=
  processed_emails w <= processed_emails w' /\
  failed_emails w <= failed_emails w' /\
  attachments_found w <= attachments_found w' /\
  attachments_extracted w <= attachments_extracted w' /\
  attachment_bytes w <= attachment_bytes w' /\
  exists t, trace w' = trace w ++ t /\ forallb inner t = true.

(** The message [m] yields the record [e], and the mbox file takes it. *)
Definition delivers {datetime} (py : library datetime) (mbox_file : mbox_file)
           (m : Message.t datetime) (e : email_message) : Prop :=
  built py m = Ok e /\ add_error mbox_file e = None.

Definition is_unlock (ev : event) : bool :=
  match ev with Mbox_unlock => true | _ => false end.

Definition is_lock (ev : event) : bool :=
  match ev with Mbox_lock => true | _ => false end.

(** The logger calls by which [convert] reports the outcome of the run. *)
Definition is_report (ev : event) : bool :=
  match ev with
  | Log (Info_conversion_completed _ _ _ _) => true
  | Log (Error_conversion_failed _) => true
  | _ => false
  end.

(** [s] begins with [pfx], letters compared without regard to case. *)
Fixpoint starts_with_ignore_case (pfx s : pystr) : bool :=
  match pfx, s with
  | [], _ => true
  | p :: pfx', c :: s' => Re.same_ignore_case p c && starts_with_ignore_case pfx' s'
  | _ :: _, [] => false
  end.

(** Some line of [s] begins with [pfx]; [prev] is the code point before
    [s], if any. *)
Fixpoint line_starts_with (pfx : pystr) (prev : option N) (s : pystr) : bool :=
  match s with
  | [] => false
  | c :: s' =>
      (Re.at_beginning_line prev && starts_with_ignore_case pfx s)
      || line_starts_with pfx (Some c) s'
  end.

(** The code point before the position that follows [s]. *)
Fixpoint last_before (prev : option N) (s : pystr) : option N :=
  match s with
  | [] => prev
  | c :: s' => last_before (Some c) s'
  end.

(* ===================================================================== *)
(** ** Sample inputs *)
(* ===================================================================== *)

Module Sample.

(** Stand-ins for the library calls, over a one-point type of dates. *)
Definition py : library unit :=
  {| header_encode := fun _ => lit "=?utf-8?b?SsO8cmdlbg==?=";
     strftime := fun _ fmt => Ok (lit fmt);
     isoformat := fun _ => lit "1970-01-01T00:00:00";
     now := tt;
     parsedate_to_datetime := fun _ => Raise ValueError |}.

Definition absent {T} : attr T := Raise AttributeError.

(** A message with both bodies and no attachments. *)
Definition both_bodies : Message.t unit :=
  {| Message.number_of_attachments := Ok (Some 0);
     Message.get_attachment := fun _ => Ok None;
     Message.plain_text_body := Ok (Some (lit "hello"));
     Message.html_body := Ok (Some (lit "<p>hello</p>"));
     Message.subject := Ok (Some (lit "Greetings"));
     Message.sender_name := Ok (Some (lit "Jane Doe"));
     Message.sender_email_address := Ok (Some (lit "jane@example.com"));
     Message.transport_headers := Ok None;
     Message.delivery_time := Ok (Some tt);
     Message.recipients := absent;
     Message.folder := Ok (Some {| Folder.name := Ok (Some (lit "Inbox")) |}) |}.

(** An attachment of declared size 0 from which no bytes are recovered. *)
Definition empty_attachment : Attachment.t :=
  {| Attachment.name := Ok (Some (lit "empty.txt"));
     Attachment.size := Ok (Some 0);
     Attachment.read_buffer := None;
     Attachment.get_data := None;
     Attachment.data := Ok None |}.

Definition one_empty_attachment : Message.t unit :=
  {| Message.number_of_attachments := Ok (Some 1);
     Message.get_attachment := fun _ => Ok (Some empty_attachment);
     Message.plain_text_body := Ok (Some (lit "hello"));
     Message.html_body := Ok None;
     Message.subject := Ok (Some (lit "Greetings"));
     Message.sender_name := absent;
     Message.sender_email_address := absent;
     Message.transport_headers := Ok None;
     Message.delivery_time := Ok None;
     Message.recipients := absent;
     Message.folder := absent |}.

(** A message with one attachment whose subject cannot be read: the PST
    reader raises an I/O error. *)
Definition broken : Message.t unit :=
  {| Message.number_of_attachments := Ok (Some 1);
     Message.get_attachment := fun _ => Ok (Some empty_attachment);
     Message.plain_text_body := Ok (Some (lit "hello"));
     Message.html_body := Ok None;
     Message.subject := Raise OSError;
     Message.sender_name := absent;
     Message.sender_email_address := absent;
     Message.transport_headers := Ok None;
     Message.delivery_time := Ok None;
     Message.recipients := absent;
     Message.folder := absent |}.

(** An mbox file whose operations all succeed. *)
Definition mbox_ok : mbox_file :=
  {| add_error := fun _ => None;
     flush_error := None;
     unlock_error := None;
     close_error := None |}.

(** The record built from [both_bodies]. *)
Definition record : email_message :=
  Eval vm_compute in
    match built py both_bodies with
    | Ok msg => msg
    | Raise _ => {| root := MIMEText [] "plain" "utf-8"; headers := [];
                    unixfrom := None |}
    end.

Definition archive : pff_archive unit :=
  {| messages := [both_bodies; broken; both_bodies];
     messages_error := None |}.

Definition env : @environment unit :=
  {| validate_files := Ok tt;
     PffArchive := Ok archive;
     mailbox_mbox := Ok mbox_ok;
     lock_error := None;
     statistics_error := None |}.

(** The logger lines of the [except] clause of the loop over the
    messages. *)
Definition is_failure_line (ev : event) : bool :=
  match ev with
  | Log (Error_failed_to_process_message _ _) => true
  | _ => false
  end.

(** An attachment whose three bytes the sized read hands back. *)
Definition report_bytes : bytes := [Byte.x25; Byte.x50; Byte.x44].

Definition report : Attachment.t :=
  {| Attachment.name := Ok (Some (lit "report.pdf"));
     Attachment.size := Ok (Some 3);
     Attachment.read_buffer := Some (fun _ => Ok (Some report_bytes));
     Attachment.get_data := None;
     Attachment.data := Ok None |}.

(** The same attachment behind a reader whose sized read fails. *)
Definition report_by_get_data : Attachment.t :=
  {| Attachment.name := Ok (Some (lit "report.pdf"));
     Attachment.size := Ok (Some 3);
     Attachment.read_buffer := Some (fun _ => Raise OSError);
     Attachment.get_data := Some (Ok (Some report_bytes));
     Attachment.data := Raise OSError |}.

Definition with_attachment (a : Attachment.t) : Message.t unit :=
  {| Message.number_of_attachments := Ok (Some 1);
     Message.get_attachment := fun _ => Ok (Some a);
     Message.plain_text_body := Ok (Some (lit "see attached"));
     Message.html_body := Ok None;
     Message.subject := Ok (Some (lit "Report"));
     Message.sender_name := absent;
     Message.sender_email_address := absent;
     Message.transport_headers := Ok None;
     Message.delivery_time := Ok None;
     Message.recipients := absent;
     Message.folder := absent |}.

(** A message neither of whose bodies can be read. *)
Definition unreadable_bodies : Message.t unit :=
  {| Message.number_of_attachments := Ok (Some 0);
     Message.get_attachment := fun _ => Ok None;
     Message.plain_text_body := Ok None;
     Message.html_body := Raise UnicodeDecodeError;
     Message.subject := Ok None;
     Message.sender_name := absent;
     Message.sender_email_address := absent;
     Message.transport_headers := Ok None;
     Message.delivery_time := Ok None;
     Message.recipients := absent;
     Message.folder := absent |}.

(** A run in which the user declines to overwrite the output file. *)
Definition declined : @environment unit :=
  {| validate_files := Raise ValueError;
     PffArchive := Ok archive;
     mailbox_mbox := Ok mbox_ok;
     lock_error := None;
     statistics_error := None |}.

(** Transport headers that name the sender only in other fields. *)
Definition relayed_headers : pystr :=
  lit "Received: by mx.example.com" ++ [10%N]
  ++ lit "X-From: Jane Doe <jane@example.com>" ++ [10%N]
  ++ lit "Subject: Report".

(** Recipients: one with a name, one whose address cannot be decoded, one
    without a name. *)
Definition alice : Recipient.t :=
  {| Recipient.email_address := Ok (Some (lit "alice@example.com"));
     Recipient.name := Ok (Some (lit "Alice")) |}.

Definition undecodable : Recipient.t :=
  {| Recipient.email_address := Raise UnicodeDecodeError;
     Recipient.name := Ok (Some (lit "Bob")) |}.

Definition nameless : Recipient.t :=
  {| Recipient.email_address := Ok (Some (lit "carol@example.com"));
     Recipient.name := Raise AttributeError |}.

End Sample.

(* ===================================================================== *)
(** ** Notions used to state further properties *)
(* ===================================================================== *)

(** An outcome that is a value, or an exception that [except Exception]
    does not catch. *)
Definition no_exception {A} (r : outcome A) : Prop :=
  match r with
  | Ok _ => True
  | Raise e => is_Exception e = false
  end.

(** No message of the archive, no [add] of its record and no step of the
    generator raises anything but an instance of [Exception]. *)
Definition interrupt_free {datetime} (py : library datetime)
           (mbox_file : mbox_file) (archive : pff_archive datetime) : Prop :=
  Forall (fun m =>
            match built py m with
            | Raise e => is_Exception e = true
            | Ok msg =>
                match add_error mbox_file msg with
                | Some e => is_Exception e = true
                | None => True
                end
            end) (messages archive) /\
  match messages_error archive with
  | Some e => is_Exception e = true
  | None => True
  end.

(** The loop over [n] messages, entered with [message_count = c] in the
    world [w], ended in [rw]: the records appended are as many as
    [processed_emails] went up, and each message was counted at most
    once, exactly once when the loop ran to its end. *)
Definition accounts (n : nat) (c : Z) (w : world) (rw : outcome Z * world)
  : Prop :=
  let (r, w') := rw in
  exists added,
    mbox w' = mbox w ++ added /\
    Z.of_nat (List.length added) = processed_emails w' - processed_emails w /\
    0 <= processed_emails w' - processed_emails w /\
    0 <= failed_emails w' - failed_emails w /\
    (processed_emails w' - processed_emails w)
    + (failed_emails w' - failed_emails w) <= Z.of_nat n /\
    match r with
    | Ok c' =>
        (processed_emails w' - processed_emails w)
        + (failed_emails w' - failed_emails w) = Z.of_nat n /\
        c' = c + (processed_emails w' - processed_emails w)
    | Raise x => is_Exception x = false
    end.

(** The run stops with the exception [e] before the lock on the mbox
    file is taken: [validate_files] raises it, or opening the PST file
    fails (reported as [RuntimeError]), or creating or locking the mbox
    file raises it. *)
Definition fails_before_lock {datetime} (env : @environment datetime)
           (e : exn) : Prop :=
  validate_files env = Raise e \/
  (validate_files env = Ok tt /\ e = RuntimeError /\
   exists e0, PffArchive env = Raise e0 /\ is_Exception e0 = true) \/
  (validate_files env = Ok tt /\ (exists a, PffArchive env = Ok a) /\
   mailbox_mbox env = Raise e) \/
  (validate_files env = Ok tt /\ (exists a, PffArchive env = Ok a) /\
   (exists mb, mailbox_mbox env = Ok mb) /\ lock_error env = Some e).

(** The body the converter works with after reading the field [name] of
    the message [m]: [safe_get_attr(m, name, '') or ""]. *)
Definition body_of {datetime} (m : Message.t datetime)
           (name : Message.t datetime -> attr pystr) : pystr :=
  match fst (safe_get_attr m name (Some []) fresh) with
  | Ok v => or_str v []
  | Raise _ => []
  end.

(** The list [extract_attachments] returns for the message [m]. *)
Definition attachments_of {datetime} (m : Message.t datetime) : list att_info :=
  match fst (extract_attachments m fresh) with
  | Ok attachments => attachments
  | Raise _ => []
  end.

(** The entry holds recovered bytes: [if att['data']]. *)
Definition recovered (a : att_info) : bool :=
  match data a with
  | Some payload => truthy_bytes payload
  | None => false
  end.

(** The read of a text field gives the converter nothing to work with:
    the field is missing, holds [None] or the empty string, or the read
    raises one of the guarded errors. *)
Definition yields_nothing (r : attr pystr) : bool :=
  match r with
  | Ok None => true
  | Ok (Some s) => negb (truthy_str s)
  | Raise e => exn_eqb e AttributeError || catches pst_read_errors e
  end.

(** What a read of a body field leaves the converter with: the string
    read, and the empty string when the field is missing or None or
    cannot be read. *)
Definition content (r : attr pystr) : pystr :=
  match r with
  | Ok (Some s) => s
  | _ => []
  end.

(** The part that carries the bodies [text] and [html]: both as
    multipart/alternative, plain first; the one that is not empty alone;
    the placeholder when both are empty. *)
Definition body_part (text html : pystr) : mime :=
  match text, html with
  | _ :: _, _ :: _ =>
      MIMEMultipart "alternative"
        [MIMEText text "plain" "utf-8"; MIMEText html "html" "utf-8"]
  | [], _ :: _ => MIMEText html "html" "utf-8"
  | _ :: _, [] => MIMEText text "plain" "utf-8"
  | [], [] => MIMEText (lit "(No content)") "plain" "utf-8"
  end.

(** The record is a single text part, not a multipart container. *)
Definition single_text_part (m : mime) : bool :=
  match m with
  | MIMEText _ _ _ => true
  | _ => false
  end.

(** A header that is set or left out. *)
Definition optional {A} (present : bool) (x : A) : list A :=
  if present then [x] else [].

(** The outcome [r] of the header assembly started on [msg0], when it is
    a record: the headers added, in order, are a non-empty Subject, From
    when there is a sender address, To, Date, Message-ID, and X-Folder
    with the folder path when that is not empty; the envelope line is set
    together with From. *)
Definition assembled (msg0 : email_message) (folder_path : option pystr)
           (r : outcome email_message) : Prop :=
  match r with
  | Ok msg =>
      exists subject has_from from has_to to date has_id id,
        subject <> [] /\
        headers msg
        = headers msg0
            ++ ("Subject"%string, subject)
            :: optional has_from ("From"%string, from)
            ++ optional has_to ("To"%string, to)
            ++ [("Date"%string, date)]
            ++ optional has_id ("Message-ID"%string, id)
            ++ optional (truthy_opt truthy_str folder_path)
                 ("X-Folder"%string,
                  match folder_path with Some path => path | None => [] end) /\
        (if has_from : bool then unixfrom msg <> None
         else unixfrom msg = unixfrom msg0)
  | Raise _ => True
  end.

(** The read of a field is one [safe_get_attr] copes with: it returns,
    the attribute is missing, or it raises one of the guarded errors. *)
Definition guarded {T} (r : attr T) : bool :=
  match r with
  | Ok _ => true
  | Raise e => exn_eqb e AttributeError || catches pst_read_errors e
  end.

(** [s.encode('utf-8')] returns: no code point of [s] is a surrogate
    (U+D800 to U+DFFF).  [Header(name, 'utf-8')] raises
    [UnicodeEncodeError] on any other name. *)
Definition utf8_encodable (s : pystr) : bool :=
  forallb (fun c => (c <? 55296)%N || (57343 <? c)%N) s.

(** The recipient has an address: the field is there, holds a string,
    and the string is not empty. *)
Definition has_address (recipient : Recipient.t) : bool :=
  match Recipient.email_address recipient with
  | Ok (Some (_ :: _)) => true
  | _ => false
  end.

(** The address and the display name of a recipient, as far as its fields
    hold them. *)
Definition address_of (recipient : Recipient.t) : pystr :=
  match Recipient.email_address recipient with
  | Ok (Some address) => address
  | _ => []
  end.

Definition name_of (recipient : Recipient.t) : option pystr :=
  match Recipient.name recipient with
  | Ok (Some name) => Some name
  | _ => None
  end.

(** The fields of the recipient can be read: each read returns, finds the
    attribute missing, or raises a guarded error; and the name, if there
    is one, can be encoded. *)
Definition readable (recipient : Recipient.t) : bool :=
  guarded (Recipient.email_address recipient)
  && guarded (Recipient.name recipient)
  && match name_of recipient with
     | Some name => utf8_encodable name
     | None => true
     end.

(** The message gives no folder: the attribute is missing or None, or its
    read raises one of the guarded errors. *)
Definition no_folder (r : attr Folder.t) : bool :=
  match r with
  | Ok None => true
  | Ok (Some _) => false
  | Raise e => exn_eqb e AttributeError || catches pst_read_errors e
  end.

(* ===================================================================== *)
(** ** [validate_files], lines 63-82 *)
(* ===================================================================== *)

Module Validation.

(** What the method finds on disk and at the terminal: the answers of
    [exists()], [is_file()] and [suffix] for the PST path, the exception
    [mkdir] raises if it does, whether the output file exists, and what
    [input] returns. *)
Record files : Type := {
  pst_exists : bool;
  pst_is_file : bool;
  pst_suffix : pystr;
  mkdir_error : option exn;
  output_exists : bool;
  input : outcome pystr
}.

(** The exceptions of the method.  [FileNotFoundError] and the two
    [ValueError]s are told apart by their message; [Propagated] is an
    exception of [mkdir] or [input], which the method does not handle. *)
Inductive refusal : Type :=
| FileNotFoundError_PST_file_not_found
| ValueError_PST_path_is_not_a_file
| ValueError_operation_cancelled_by_user
| Propagated (e : exn).

(** What the method does besides returning, in order. *)
Inductive action : Type :=
| Warning_file_extension_is_not_pst
| Mkdir_parents
| Input_overwrite_prompt.

(** [str.lower()].  Only the letters A to Z are mapped; the results are
    compared with ASCII literals, which no other code point lower-cases
    to. *)
Definition str_lower (s : pystr) : pystr := List.map Re.lower s.

Fixpoint str_eqb (a b : pystr) : bool :=
  match a, b with
  | [], [] => true
  | x :: a', y :: b' => (x =? y)%N && str_eqb a' b'
  | _, _ => false
  end.

(** [s in [l1, l2, ...]] *)
Definition in_list (s : pystr) (l : list pystr) : bool :=
  existsb (str_eqb s) l.

(** [None] is the normal return; the actions are those carried out
    before the method returned or raised. *)
Definition validate_files (fs : files) : option refusal * list action :=
  if negb (pst_exists fs) then
    (Some FileNotFoundError_PST_file_not_found, [])
  else if negb (pst_is_file fs) then
    (Some ValueError_PST_path_is_not_a_file, [])
  else
    (* Check file extension *)
    let warned :=
      if negb (in_list (str_lower (pst_suffix fs)) [lit ".pst"])
      then [Warning_file_extension_is_not_pst] else [] in
    (* Check if output directory exists, create if not *)
    match mkdir_error fs with
    | Some e => (Some (Propagated e), warned ++ [Mkdir_parents])
    | None =>
        (* Check if output file already exists *)
        if output_exists fs then
          match input fs with
          | Raise e =>
              (Some (Propagated e),
               warned ++ [Mkdir_parents; Input_overwrite_prompt])
          | Ok response =>
              if negb (in_list (str_lower response) [lit "y"; lit "yes"])
              then (Some ValueError_operation_cancelled_by_user,
                    warned ++ [Mkdir_parents; Input_overwrite_prompt])
              else (None,
                    warned ++ [Mkdir_parents; Input_overwrite_prompt])
          end
        else (None, warned ++ [Mkdir_parents])
    end.

Definition with_suffix (fs : files) (suffix : pystr) : files :=
  {| pst_exists := pst_exists fs;
     pst_is_file := pst_is_file fs;
     pst_suffix := suffix;
     mkdir_error := mkdir_error fs;
     output_exists := output_exists fs;
     input := input fs |}.

Definition is_warning (a : action) : bool :=
  match a with
  | Warning_file_extension_is_not_pst => true
  | _ => false
  end.

(** An existing archive [mail.PST] and an existing output file, with the
    answer [Yes] at the prompt. *)
Definition sample : files :=
  {| pst_exists := true;
     pst_is_file := true;
     pst_suffix := lit ".PST";
     mkdir_error := None;
     output_exists := true;
     input := Ok (lit "Yes") |}.

End Validation.

(* ===================================================================== *)
(** ** [main], lines 408-456 *)
(* ===================================================================== *)

(** The lines [main] prints in its two [except] clauses. *)
Inductive printed : Type :=
| Conversion_interrupted_by_user
| Unexpected_error (e : exn).

(** Lines 447-456, after the arguments are parsed and the converter is
    made: the status the process exits with ([sys.exit] raises
    [SystemExit], which neither [except] clause catches) and what was
    printed.  An exception that is neither a [KeyboardInterrupt] nor an
    instance of [Exception] propagates. *)
Definition main {datetime} (py : library datetime)
           (env : @environment datetime)
  : world -> outcome (Z * list printed) * world :=
  fun w =>
    match convert py env w with
    | (Ok success, w') => (Ok (if success : bool then 0 else 1, []), w')
    | (Raise e, w') =>
        if issubclass e KeyboardInterrupt then
          (Ok (1, [Conversion_interrupted_by_user]), w')
        else if is_Exception e then
          (Ok (1, [Unexpected_error e]), w')
        else (Raise e, w')
    end.

Lemma after_dzero (w : world) : after w dzero = w.
Proof.
  destruct w; unfold after; simpl.
  rewrite !Z.add_0_r, !app_nil_r. reflexivity.
Qed.

Lemma after_dplus (w : world) (a b : delta) :
  after (after w a) b = after w (dplus a b).
Proof.
  unfold after, dplus; simpl.
  rewrite !Z.add_assoc, !app_assoc. reflexivity.
Qed.

Lemma quiet_dzero : quiet dzero.
Proof. repeat split. Qed.

Lemma quiet_dplus (a b : delta) : quiet a -> quiet b -> quiet (dplus a b).
Proof.
  unfold quiet; simpl.
  intros (?&?&?&?&?&Ha&?) (?&?&?&?&?&Hb&?).
  rewrite Ha, Hb, forallb_app. repeat split; try lia.
  now apply andb_true_intro.
Qed.

Lemma quiet_attachments_only (d : delta) : quiet d -> attachments_only d.
Proof. unfold quiet, attachments_only. intuition lia. Qed.

Lemma attachments_only_dzero : attachments_only dzero.
Proof. apply quiet_attachments_only, quiet_dzero. Qed.

Lemma attachments_only_dplus (a b : delta) :
  attachments_only a -> attachments_only b -> attachments_only (dplus a b).
Proof.
  unfold attachments_only; simpl.
  intros (?&?&?&?&?&Ha&?) (?&?&?&?&?&Hb&?).
  rewrite Ha, Hb, forallb_app. repeat split; try lia.
  now apply andb_true_intro.
Qed.

Create HintDb delta.
#[local] Hint Resolve quiet_dzero quiet_dplus quiet_attachments_only
  attachments_only_dzero attachments_only_dplus : delta.

Section Rules.

Context {A B : Type}.

Lemma writes_ret (a : A) : writes (ret a) (Ok a) dzero.
Proof. intros w. unfold ret. now rewrite after_dzero. Qed.

Lemma writes_raise (e : exn) : writes (@raise A e) (Raise e) dzero.
Proof. intros w. unfold raise. now rewrite after_dzero. Qed.

Lemma writes_lift (r : outcome A) : writes (lift r) r dzero.
Proof. intros w. unfold lift. now rewrite after_dzero. Qed.

Lemma writes_bind_ok (m : M A) (k : A -> M B) a d1 r d2 :
  writes m (Ok a) d1 -> writes (k a) r d2 ->
  writes (bind m k) r (dplus d1 d2).
Proof.
  intros Hm Hk w. unfold bind. now rewrite Hm, Hk, after_dplus.
Qed.

Lemma writes_bind_raise (m : M A) (k : A -> M B) e d :
  writes m (Raise e) d -> writes (bind m k) (Raise e) d.
Proof. intros Hm w. unfold bind. now rewrite Hm. Qed.

Lemma writes_attempt (m : M A) r d :
  writes m r d -> writes (attempt m) (Ok r) d.
Proof. intros Hm w. unfold attempt. now rewrite Hm. Qed.

(** The outcome of a computation that only adds to the world does not
    depend on the world. *)
Lemma writes_fst (m : M A) r d (w : world) : writes m r d -> fst (m w) = r.
Proof. intros Hm. now rewrite Hm. Qed.

Lemma spec_ret (a : A) (P : outcome A -> delta -> Prop) :
  P (Ok a) dzero -> spec (ret a) P.
Proof. intros H. exists (Ok a), dzero. split; [apply writes_ret | exact H]. Qed.

Lemma spec_raise (e : exn) (P : outcome A -> delta -> Prop) :
  P (Raise e) dzero -> spec (raise e) P.
Proof.
  intros H. exists (Raise e), dzero. split; [apply writes_raise | exact H].
Qed.

Lemma spec_lift (r : outcome A) (P : outcome A -> delta -> Prop) :
  P r dzero -> spec (lift r) P.
Proof. intros H. exists r, dzero. split; [apply writes_lift | exact H]. Qed.

Lemma spec_weaken (m : M A) (P Q : outcome A -> delta -> Prop) :
  spec m P -> (forall r d, P r d -> Q r d) -> spec m Q.
Proof. intros (r & d & Hm & HP) H. exists r, d. auto. Qed.

Lemma spec_bind (m : M A) (k : A -> M B)
      (P : outcome A -> delta -> Prop) (Q : outcome B -> delta -> Prop) :
  spec m P ->
  (forall a d1, P (Ok a) d1 -> spec (k a) (fun r d2 => Q r (dplus d1 d2))) ->
  (forall e d1, P (Raise e) d1 -> Q (Raise e) d1) ->
  spec (bind m k) Q.
Proof.
  intros (r & d1 & Hm & HP) Hok Hraise.
  destruct r as [a | e].
  - destruct (Hok a d1 HP) as (r & d2 & Hk & HQ).
    exists r, (dplus d1 d2). split; [|exact HQ].
    eapply writes_bind_ok; eauto.
  - exists (Raise e), d1. split; [|auto].
    now apply writes_bind_raise.
Qed.

Lemma spec_attempt (m : M A) (P : outcome A -> delta -> Prop)
      (Q : outcome (outcome A) -> delta -> Prop) :
  spec m P -> (forall r d, P r d -> Q (Ok r) d) -> spec (attempt m) Q.
Proof.
  intros (r & d & Hm & HP) H. exists (Ok r), d.
  split; [now apply writes_attempt | auto].
Qed.

End Rules.

Lemma spec_try_except {A} (m : M A) (guard : exn -> bool) (handler : exn -> M A)
      (P Q : outcome A -> delta -> Prop) :
  spec m P ->
  (forall a d, P (Ok a) d -> Q (Ok a) d) ->
  (forall e d1, P (Raise e) d1 -> guard e = true ->
                spec (handler e) (fun r d2 => Q r (dplus d1 d2))) ->
  (forall e d1, P (Raise e) d1 -> guard e = false -> Q (Raise e) d1) ->
  spec (try_except m guard handler) Q.
Proof.
  intros (r & d & Hm & HP) Hok Hcaught Hpass.
  unfold try_except.
  destruct r as [a | e].
  - exists (Ok a), d. split; [|auto].
    intros w. unfold bind, attempt, ret. now rewrite Hm.
  - destruct (guard e) eqn:Hg.
    + destruct (Hcaught e d HP Hg) as (r & d2 & Hh & HQ).
      exists r, (dplus d d2). split; [|exact HQ].
      intros w. unfold bind, attempt. now rewrite Hm, Hg, Hh, after_dplus.
    + exists (Raise e), d. split; [|auto].
      intros w. unfold bind, attempt, raise. now rewrite Hm, Hg.
Qed.

Lemma writes_emit (ev : event) :
  writes (emit ev) (Ok tt)
         {| d_processed := 0; d_failed := 0; d_found := 0; d_extracted := 0;
            d_bytes := 0; d_trace := [ev]; d_mbox := [] |}.
Proof.
  intros w. unfold emit, after; simpl.
  rewrite !Z.add_0_r, app_nil_r. reflexivity.
Qed.

Lemma spec_logger (r : log_record) (P : outcome unit -> delta -> Prop) :
  inner (Log r) = true ->
  (forall d, quiet d -> d_trace d = [Log r] -> P (Ok tt) d) ->
  spec (logger r) P.
Proof.
  intros Hr H. eexists _, _. split; [apply writes_emit|].
  apply H; [|reflexivity].
  repeat split; try reflexivity.
  cbn [d_trace forallb]. now rewrite Hr.
Qed.

(** Solving side conditions on deltas: projections of sums are sums of
    projections, and what is known about the summands is rewritten in. *)
Ltac dnorm :=
  unfold quiet, attachments_only in *;
  repeat match goal with
         | H : _ /\ _ |- _ => destruct H
         end.

Ltac dsolve :=
  dnorm; subst;
  cbn [dplus dzero d_processed d_failed d_found d_extracted d_bytes
       d_trace d_mbox];
  rewrite ?forallb_app;
  repeat match goal with
         | H : d_mbox ?d = _ |- context [d_mbox ?d] => rewrite H
         | H : d_trace ?d = _ |- context [d_trace ?d] => rewrite H
         | H : forallb inner ?t = _ |- context [forallb inner ?t] => rewrite H
         end;
  repeat split; try reflexivity; try lia.

Lemma lift_spec {A} (r : outcome A) :
  spec (lift r) (fun r' d => r' = r /\ quiet d).
Proof. apply spec_lift. split; [reflexivity | apply quiet_dzero]. Qed.

Lemma logger_spec (x : log_record) :
  inner (Log x) = true ->
  spec (logger x) (fun r d => r = Ok tt /\ quiet d /\ d_trace d = [Log x]).
Proof. intros H. apply spec_logger; auto. Qed.

Lemma add_attachments_found_spec (n : Z) :
  spec (add_attachments_found n)
       (fun r d => r = Ok tt /\ d_processed d = 0 /\ d_failed d = 0 /\
                   d_found d = n /\ d_extracted d = 0 /\ d_bytes d = 0 /\
                   d_mbox d = [] /\ d_trace d = []).
Proof.
  exists (Ok tt),
    {| d_processed := 0; d_failed := 0; d_found := n; d_extracted := 0;
       d_bytes := 0; d_trace := []; d_mbox := [] |}.
  split; [|repeat split].
  intros w. unfold add_attachments_found, after; simpl.
  now rewrite !Z.add_0_r, !app_nil_r.
Qed.

Lemma add_attachments_extracted_spec (n : Z) :
  spec (add_attachments_extracted n)
       (fun r d => r = Ok tt /\ d_processed d = 0 /\ d_failed d = 0 /\
                   d_found d = 0 /\ d_extracted d = n /\ d_bytes d = 0 /\
                   d_mbox d = [] /\ d_trace d = []).
Proof.
  exists (Ok tt),
    {| d_processed := 0; d_failed := 0; d_found := 0; d_extracted := n;
       d_bytes := 0; d_trace := []; d_mbox := [] |}.
  split; [|repeat split].
  intros w. unfold add_attachments_extracted, after; simpl.
  now rewrite !Z.add_0_r, !app_nil_r.
Qed.

Lemma add_attachment_bytes_spec (n : Z) :
  spec (add_attachment_bytes n)
       (fun r d => r = Ok tt /\ d_processed d = 0 /\ d_failed d = 0 /\
                   d_found d = 0 /\ d_extracted d = 0 /\ d_bytes d = n /\
                   d_mbox d = [] /\ d_trace d = []).
Proof.
  exists (Ok tt),
    {| d_processed := 0; d_failed := 0; d_found := 0; d_extracted := 0;
       d_bytes := n; d_trace := []; d_mbox := [] |}.
  split; [|repeat split].
  intros w. unfold add_attachment_bytes, after; simpl.
  now rewrite !Z.add_0_r, !app_nil_r.
Qed.

(** *** The safe accessor *)

Lemma safe_get_attr_quiet {O T} (obj : O) (name : O -> attr T)
      (default : option T) :
  spec (safe_get_attr obj name default) (fun _ d => quiet d).
Proof.
  unfold safe_get_attr.
  eapply spec_try_except with (P := fun _ d => quiet d).
  - eapply spec_bind; [apply lift_spec | |].
    + intros a d1 [_ Hq]. apply spec_ret. dsolve.
    + intros e d1 [_ Hq]. exact Hq.
  - auto.
  - intros e d1 Hq _.
    eapply spec_bind; [apply logger_spec; reflexivity | |].
    + intros a d2 (_ & Hq2 & _). apply spec_ret. dsolve.
    + intros e' d2 (He & _). discriminate He.
  - auto.
Qed.

(** A read that yields a value is handed through untouched. *)
Lemma safe_get_attr_value {O T} (obj : O) (name : O -> attr T)
      (default : option T) (v : T) (w : world) :
  name obj = Ok (Some v) ->
  safe_get_attr obj name default w = (Ok (Some v), w).
Proof.
  intros H. unfold safe_get_attr, try_except, bind, attempt, lift, getattr, ret.
  now rewrite H.
Qed.

(** *** Rules for computations that only log *)

Lemma quietly_ret {A} (a : A) (post : outcome A -> Prop) :
  post (Ok a) -> quietly (ret a) post.
Proof. intros H. apply spec_ret. split; [apply quiet_dzero | exact H]. Qed.

Lemma quietly_raise {A} (e : exn) (post : outcome A -> Prop) :
  post (Raise e) -> quietly (raise e) post.
Proof. intros H. apply spec_raise. split; [apply quiet_dzero | exact H]. Qed.

Lemma quietly_lift {A} (r : outcome A) (post : outcome A -> Prop) :
  post r -> quietly (lift r) post.
Proof. intros H. apply spec_lift. split; [apply quiet_dzero | exact H]. Qed.

Lemma quietly_logger (x : log_record) (post : outcome unit -> Prop) :
  inner (Log x) = true -> post (Ok tt) -> quietly (logger x) post.
Proof. intros Hx H. apply spec_logger; [exact Hx|]. intros d Hq _. now split. Qed.

Lemma quietly_weaken {A} (m : M A) (post post' : outcome A -> Prop) :
  quietly m post -> (forall r, post r -> post' r) -> quietly m post'.
Proof.
  intros Hm H. eapply spec_weaken; [exact Hm|].
  intros r d [Hq Hp]. split; auto.
Qed.

Lemma quietly_bind {A B} (m : M A) (k : A -> M B)
      (pre : outcome A -> Prop) (post : outcome B -> Prop) :
  quietly m pre ->
  (forall a, pre (Ok a) -> quietly (k a) post) ->
  (forall e, pre (Raise e) -> post (Raise e)) ->
  quietly (bind m k) post.
Proof.
  intros Hm Hk He. eapply spec_bind; [exact Hm | |].
  - intros a d1 [Hq Hp]. eapply spec_weaken; [apply (Hk a Hp)|].
    intros r d2 [Hq2 Hr]. split; [now apply quiet_dplus | exact Hr].
  - intros e d1 [Hq Hp]. split; auto.
Qed.

Lemma quietly_attempt {A} (m : M A) (post : outcome (outcome A) -> Prop) :
  quietly m (fun r => post (Ok r)) -> quietly (attempt m) post.
Proof. intros Hm. eapply spec_attempt; [exact Hm|]. auto. Qed.

Lemma quietly_try_except {A} (m : M A) (guard : exn -> bool)
      (handler : exn -> M A) (pre post : outcome A -> Prop) :
  quietly m pre ->
  (forall a, pre (Ok a) -> post (Ok a)) ->
  (forall e, pre (Raise e) -> guard e = true -> quietly (handler e) post) ->
  (forall e, pre (Raise e) -> guard e = false -> post (Raise e)) ->
  quietly (try_except m guard handler) post.
Proof.
  intros Hm Hok Hh Hp.
  eapply spec_try_except; [exact Hm | | |].
  - intros a d [Hq Ha]. split; auto.
  - intros e d1 [Hq He] Hg. eapply spec_weaken; [apply (Hh e He Hg)|].
    intros r d2 [Hq2 Hr]. split; [now apply quiet_dplus | exact Hr].
  - intros e d [Hq He] Hg. split; auto.
Qed.

Lemma safe_get_attr_quietly {O T} (obj : O) (name : O -> attr T)
      (default : option T) :
  quietly (safe_get_attr obj name default) (fun _ => True).
Proof.
  eapply spec_weaken; [apply safe_get_attr_quiet|]. intros; now split.
Qed.

(** Goals stating that a computation only logs. *)
Ltac quiet_step :=
  lazymatch goal with
  | |- quietly (ret _) _ => apply quietly_ret
  | |- quietly (raise _) _ => apply quietly_raise
  | |- quietly (lift _) _ => apply quietly_lift
  | |- quietly (logger _) _ => apply quietly_logger; [reflexivity|]
  | |- quietly (safe_get_attr _ _ _) _ =>
      eapply quietly_weaken; [apply safe_get_attr_quietly | intros ? _]
  | |- quietly (attempt _) _ => apply quietly_attempt
  | |- quietly (try_except _ _ _) _ =>
      eapply quietly_try_except with (pre := fun _ => True);
      [ | intros ? _ | intros ? _ _ | intros ? _ _; try exact I ]
  | |- quietly (bind _ _) _ =>
      eapply quietly_bind with (pre := fun _ => True);
      [ | intros ? _ | intros ? _; try exact I ]
  | |- quietly (match ?x with _ => _ end) _ => destruct x
  | |- quietly (let (_, _) := ?x in _) _ => destruct x
  | |- True => exact I
  end.

Ltac quiet_auto := repeat (cbv beta zeta; quiet_step).

(* ===================================================================== *)
(** ** Properties of the converter *)
(* ===================================================================== *)

Section Properties.

Context {datetime : Type}.
Variable py : library datetime.

Abbreviation message := (Message.t datetime).

(** *** Header assembly only logs and keeps the MIME root *)

Lemma read_delivery_time_quietly (m : message) (headers : option pystr) :
  quietly (read_delivery_time py m headers) (fun _ => True).
Proof. unfold read_delivery_time. quiet_auto. Qed.

Lemma for_each_recipient_quietly (rs : list Recipient.t) (acc : list pystr) :
  quietly (for_each_recipient py rs acc) (fun _ => True).
Proof.
  revert acc. induction rs as [|r rs IH]; intros acc; simpl.
  - quiet_auto.
  - quiet_auto. apply IH.
Qed.

Lemma read_recipients_quietly (m : message) :
  quietly (read_recipients py m) (fun _ => True).
Proof.
  unfold read_recipients.
  eapply quietly_bind with (pre := fun _ => True);
    [ | intros r _ | intros; exact I ].
  - quiet_auto; apply for_each_recipient_quietly.
  - quiet_auto.
Qed.

Lemma add_headers_root (m : message) (folder_path : option pystr)
      (msg : email_message) :
  quietly (add_headers py m folder_path msg) (same_root msg).
Proof.
  unfold add_headers.
  do 4 (eapply quietly_bind with (pre := fun _ => True);
        [ quiet_auto | intros ? _ | intros; exact I ]).
  cbv zeta.
  destruct (recover_sender _ _ _) as [sender_name sender_email].
  eapply quietly_bind with (pre := same_root msg);
    [ | intros msg1 H1 | intros; exact I ].
  { destruct sender_email as [[|c address]|].
    - quiet_auto. reflexivity.
    - eapply quietly_bind with (pre := fun _ => True);
        [ apply read_delivery_time_quietly | intros ? _ | intros; exact I ].
      quiet_auto. reflexivity.
    - quiet_auto. reflexivity. }
  eapply quietly_bind with (pre := fun _ => True);
    [ apply read_recipients_quietly | intros recipients _ | intros; exact I ].
  eapply quietly_bind with (pre := fun _ => True);
    [ apply read_delivery_time_quietly | intros delivery_time _
    | intros; exact I ].
  simpl in H1.
  eapply quietly_bind with (pre := same_root msg);
    [ | intros msg2 H2 | intros; exact I ].
  { destruct delivery_time as [t|].
    - eapply quietly_try_except with (pre := same_root msg).
      + quiet_auto. simpl. now destruct recipients.
      + auto.
      + intros e _ _. quiet_auto. simpl. now destruct recipients.
      + intros; exact I.
    - quiet_auto. simpl. now destruct recipients. }
  simpl in H2.
  quiet_auto. simpl.
  repeat match goal with
         | |- context [match ?x with _ => _ end] => destruct x
         end; simpl; assumption.
Qed.

(** *** Attachment extraction *)

Lemma actual_size_nonneg (d : option bytes) : 0 <= actual_size d.
Proof. destruct d; simpl; lia. Qed.

Lemma count_extracted_cons (a : att_info) (l : list att_info) :
  count_extracted (a :: l) = (if counted a then 1 else 0) + count_extracted l.
Proof.
  unfold count_extracted. cbn [filter].
  destruct (counted a); cbn [List.length]; lia.
Qed.

Lemma count_extracted_app (l1 l2 : list att_info) :
  count_extracted (l1 ++ l2) = count_extracted l1 + count_extracted l2.
Proof.
  unfold count_extracted. rewrite filter_app, length_app. lia.
Qed.

Lemma total_bytes_app (l1 l2 : list att_info) :
  total_bytes (l1 ++ l2) = total_bytes l1 + total_bytes l2.
Proof.
  unfold total_bytes. induction l1 as [|a l1 IH]; simpl; lia.
Qed.

Lemma count_extracted_nonneg (l : list att_info) : 0 <= count_extracted l.
Proof. unfold count_extracted. lia. Qed.

Lemma total_bytes_nonneg (l : list att_info) : 0 <= total_bytes l.
Proof.
  unfold total_bytes. induction l as [|a l IH]; simpl; [lia|].
  pose proof (actual_size_nonneg (data a)). lia.
Qed.

Lemma quiet_counts (d : delta) : quiet d -> counts [] d.
Proof. unfold quiet, counts. intuition. Qed.

Lemma counts_dplus (l1 l2 : list att_info) (d1 d2 : delta) :
  counts l1 d1 -> counts l2 d2 -> counts (l1 ++ l2) (dplus d1 d2).
Proof.
  unfold counts. intros H1 H2.
  rewrite count_extracted_app, total_bytes_app. dsolve.
Qed.

Lemma counts_quiet_l (l : list att_info) (d1 d2 : delta) :
  quiet d1 -> counts l d2 -> counts l (dplus d1 d2).
Proof. intros H1 H2. apply (counts_dplus (l1 := [])); [now apply quiet_counts | exact H2]. Qed.

(** Binding after a computation that only logs. *)
Lemma spec_bind_quiet {A B} (m : M A) (k : A -> M B) (pre : outcome A -> Prop)
      (Q : outcome B -> delta -> Prop) :
  (forall r d1 d2, quiet d1 -> Q r d2 -> Q r (dplus d1 d2)) ->
  quietly m pre ->
  (forall a, pre (Ok a) -> spec (k a) Q) ->
  (forall e d, pre (Raise e) -> quiet d -> Q (Raise e) d) ->
  spec (bind m k) Q.
Proof.
  intros Hcl Hm Hk He. eapply spec_bind; [exact Hm | |].
  - intros a d1 [Hq Hp]. eapply spec_weaken; [apply (Hk a Hp)|].
    intros r d2 HQ. now apply Hcl.
  - intros e d1 [Hq Hp]. now apply He.
Qed.

Lemma extract_attachment_spec (m : message) (i : Z) :
  spec (extract_attachment m i) (fun r d => counts (appended r) d).
Proof.
  assert (Hcl : forall (r : outcome (option att_info)) d1 d2,
             quiet d1 -> counts (appended r) d2 ->
             counts (appended r) (dplus d1 d2))
    by (intros; now apply counts_quiet_l).
  unfold extract_attachment.
  eapply spec_bind_quiet with (pre := fun _ => True);
    [ exact Hcl | quiet_auto | intros [att|] _
    | intros; now apply quiet_counts ].
  2: { apply spec_ret. now apply quiet_counts, quiet_dzero. }
  do 5 (eapply spec_bind_quiet with (pre := fun _ => True);
        [ exact Hcl | cbv beta zeta iota; quiet_auto | intros ? _
        | intros; now apply quiet_counts ]).
  cbv beta zeta.
  match goal with
  | |- spec (bind (if ?c then _ else _) _) _ => destruct c eqn:Hc
  end.
  - eapply spec_bind; [apply logger_spec; reflexivity | |].
    + intros [] d1 (_ & Hq & _). apply spec_ret.
      apply counts_quiet_l; [exact Hq|].
      unfold counts, appended. rewrite count_extracted_cons.
      unfold counted, total_bytes. cbn [data size List.map fold_right].
      rewrite Hc. apply andb_prop in Hc. destruct Hc as [Hz _].
      apply Z.eqb_eq in Hz. rewrite Hz. repeat split.
    + intros e d1 (He & _). discriminate He.
  - eapply spec_bind
      with (P := fun r d =>
                   r = Ok tt /\ d_processed d = 0 /\ d_failed d = 0 /\
                   d_found d = 0 /\ d_extracted d = 1 /\
                   d_bytes d = actual_size a3 /\ d_mbox d = [] /\
                   forallb inner (d_trace d) = true).
    + eapply spec_bind; [apply add_attachments_extracted_spec | |].
      2: { intros e d1 (He & _). discriminate He. }
      intros [] d1 H1.
      eapply spec_bind; [apply add_attachment_bytes_spec | |].
      2: { intros e d2 (He & _). discriminate He. }
      intros [] d2 H2.
      apply spec_logger; [reflexivity|].
      intros d3 H3 _. dsolve.
    + intros [] d1 H1. apply spec_ret.
      unfold counts, appended. rewrite count_extracted_cons.
      unfold counted, total_bytes. cbn [data size List.map fold_right].
      rewrite Hc. cbn [negb]. change (count_extracted []) with 0.
      dsolve.
    + intros e d1 (He & _). discriminate He.
Qed.

Lemma for_each_attachment_spec (m : message) (indices : list Z)
      (acc : list att_info) :
  spec (for_each_attachment m indices acc)
       (fun r d => exists l oe, r = Ok (acc ++ l, oe) /\ counts l d).
Proof.
  revert acc.
  induction indices as [|i indices IH]; intros acc;
    cbn [for_each_attachment].
  - apply spec_ret. exists [], None. rewrite app_nil_r.
    split; [reflexivity | apply quiet_counts, quiet_dzero].
  - eapply spec_bind.
    + eapply spec_attempt with
        (Q := fun r' d => exists r, r' = Ok r /\ counts (appended r) d);
        [apply extract_attachment_spec|].
      intros r d H. now exists r.
    + intros r d1 (r0 & Hr & H1). inversion Hr; subst r0; clear Hr.
      destruct r as [[a|]|e]; cbn [appended] in H1.
      * eapply spec_weaken; [apply IH|].
        intros r d2 (l & oe & -> & H2). exists (a :: l), oe.
        split; [now rewrite <- app_assoc|].
        now apply (counts_dplus (l1 := [a])).
      * eapply spec_weaken; [apply IH|].
        intros r d2 (l & oe & -> & H2). exists l, oe.
        split; [reflexivity|].
        now apply (counts_dplus (l1 := [])).
      * destruct (catches pst_read_errors e).
        -- eapply spec_bind; [apply logger_spec; reflexivity | |].
           ++ intros [] d2 (_ & Hq & _).
              eapply spec_weaken; [apply IH|].
              intros r d3 (l & oe & -> & H3). exists l, oe.
              split; [reflexivity|].
              apply (counts_dplus (l1 := [])); [exact H1|].
              now apply counts_quiet_l.
           ++ intros e' d2 (He & _). discriminate He.
        -- apply spec_ret. exists [], (Some e). rewrite app_nil_r.
           split; [reflexivity|].
           apply (counts_dplus (l1 := [])); [exact H1|].
           apply quiet_counts, quiet_dzero.
    + intros e d1 (r0 & Hr & _). discriminate Hr.
Qed.

Lemma bind_lift_ok {A B} (a : A) (k : A -> M B) : bind (lift (Ok a)) k = k a.
Proof. reflexivity. Qed.

Lemma bind_lift_raise {A B} (e : exn) (k : A -> M B) :
  bind (lift (Raise e)) k = raise e.
Proof. reflexivity. Qed.

Lemma range_length (n : Z) : Z.of_nat (List.length (range n)) = Z.max 0 n.
Proof. unfold range. rewrite length_map, length_seq. lia. Qed.

Lemma extract_attachments_spec (m : message) :
  spec (extract_attachments m) (extraction m).
Proof.
  unfold extract_attachments.
  eapply spec_bind with
    (P := fun r d =>
            d_processed d = 0 /\ d_failed d = 0 /\ d_mbox d = [] /\
            forallb inner (d_trace d) = true /\
            d_found d = enumerated m /\
            exists l, d_extracted d = count_extracted l /\
                      d_bytes d = total_bytes l /\
                      match r with
                      | Ok (Ok (attachments, _)) => attachments = l
                      | Ok (Raise _) => l = []
                      | Raise _ => False
                      end).
  - apply spec_attempt with
      (P := fun r d =>
              d_processed d = 0 /\ d_failed d = 0 /\ d_mbox d = [] /\
              forallb inner (d_trace d) = true /\
              d_found d = enumerated m /\
              exists l, d_extracted d = count_extracted l /\
                        d_bytes d = total_bytes l /\
                        match r with
                        | Ok (attachments, _) => attachments = l
                        | Raise _ => l = []
                        end); [|auto].
    unfold hasattr, enumerated.
    destruct (Message.number_of_attachments m) as [[n|]|e].
    + rewrite !bind_lift_ok.
      eapply spec_bind with
        (P := fun r d =>
                r = Ok tt /\ d_processed d = 0 /\ d_failed d = 0 /\
                d_mbox d = [] /\ forallb inner (d_trace d) = true /\
                d_found d = Z.of_nat (List.length (range n)) /\
                d_extracted d = 0 /\ d_bytes d = 0).
      * rewrite range_length. pose proof (Zgt_cases n 0) as Hn.
        destruct (n >? 0).
        -- eapply spec_bind; [apply logger_spec; reflexivity | |].
           ++ intros [] d1 (_ & Hq & _).
              eapply spec_weaken; [apply add_attachments_found_spec|].
              intros r d2 H. dsolve.
           ++ intros e d1 (He & _). discriminate He.
        -- apply spec_ret. dsolve.
      * intros [] d1 H1.
        eapply spec_weaken; [apply for_each_attachment_spec|].
        intros r d2 (l & oe & -> & H2). cbn [app].
        unfold counts in H2. dnorm.
        repeat split; [dsolve .. |].
        exists l. dsolve.
      * intros e d1 (He & _). discriminate He.
    + rewrite !bind_lift_ok. apply spec_raise.
      repeat split; try reflexivity. now exists [].
    + destruct e; rewrite ?bind_lift_ok, ?bind_lift_raise;
        (apply spec_ret || apply spec_raise);
        (repeat split; try reflexivity; now exists []).
  - intros r d1 (Hp & Hf & Hm & Ht & Hn & l & Hx & Hb & Hr).
    pose proof (count_extracted_nonneg l).
    pose proof (total_bytes_nonneg l).
    destruct r as [[attachments [e|]]|e].
    + subst l. destruct (is_Exception e).
      * eapply spec_bind; [apply logger_spec; reflexivity | |].
        -- intros [] d2 (_ & Hq & _). apply spec_ret.
           unfold extraction. do 7 (split; [dsolve|]).
           intros l Hl. inversion Hl; subst l. dsolve.
        -- intros e' d2 (He & _). discriminate He.
      * apply spec_raise. unfold extraction. do 7 (split; [dsolve|]).
        intros l Hl. discriminate Hl.
    + subst l. apply spec_ret. unfold extraction.
      do 7 (split; [dsolve|]).
      intros l Hl. inversion Hl; subst l. dsolve.
    + subst l. destruct (is_Exception e).
      * eapply spec_bind; [apply logger_spec; reflexivity | |].
        -- intros [] d2 (_ & Hq & _). apply spec_ret.
           unfold extraction. do 7 (split; [dsolve|]).
           intros l Hl. inversion Hl; subst l. dsolve.
        -- intros e' d2 (He & _). discriminate He.
      * apply spec_raise. unfold extraction. do 7 (split; [dsolve|]).
        intros l Hl. discriminate Hl.
  - intros e d1 (_ & _ & _ & _ & _ & l & _ & _ & []).
Qed.

(** *** Building one record *)

Lemma extraction_attachments_only (m : message) r d :
  extraction m r d -> attachments_only d.
Proof.
  unfold extraction, attachments_only, enumerated.
  intros (?&?&?&?&Hf&?&?&_).
  assert (0 <= d_found d).
  { rewrite Hf. destruct (Message.number_of_attachments m) as [[n|]|e]; lia. }
  intuition.
Qed.

Lemma folder_path_of_quietly (m : message) :
  quietly (folder_path_of m) (fun _ => True).
Proof. unfold folder_path_of. quiet_auto. Qed.

Lemma convert_pst_message_to_email_spec (m : message) (fp : option pystr) :
  spec (convert_pst_message_to_email py m fp) (fun _ d => attachments_only d).
Proof.
  unfold convert_pst_message_to_email.
  eapply spec_try_except with (P := fun _ d => attachments_only d).
  - eapply spec_bind; [apply safe_get_attr_quiet | | auto with delta].
    intros bt d1 H1.
    eapply spec_bind; [apply safe_get_attr_quiet | | ].
    2: { cbv beta. auto with delta. }
    intros bh d2 H2.
    eapply spec_bind; [apply extract_attachments_spec | | ].
    2: { cbv beta. intros e d3 H3%extraction_attachments_only.
         auto with delta. }
    intros attachments d3 H3%extraction_attachments_only.
    eapply spec_weaken; [apply add_headers_root|].
    cbv beta. intros r d4 [H4 _]. auto 6 with delta.
  - auto.
  - intros e d1 H1 _.
    eapply spec_bind; [apply logger_spec; reflexivity | |].
    + intros [] d2 (_ & H2 & _). apply spec_raise. auto 6 with delta.
    + intros e' d2 (He & _). discriminate He.
  - auto.
Qed.

Lemma build_spec (m : message) :
  spec (build py m) (fun _ d => attachments_only d).
Proof.
  unfold build.
  eapply spec_bind; [apply folder_path_of_quietly | |].
  - intros fp d1 [H1 _].
    eapply spec_weaken; [apply convert_pst_message_to_email_spec|].
    cbv beta. auto with delta.
  - cbv beta. intros e d1 [H1 _]. auto with delta.
Qed.

(** The outcome of building a record does not depend on the state of
    the converter. *)
Lemma build_writes (m : message) :
  exists d, writes (build py m) (built py m) d /\ attachments_only d.
Proof.
  destruct (build_spec m) as (r & d & Hw & Hd).
  exists d. split; [|exact Hd].
  unfold built. now rewrite (writes_fst fresh Hw).
Qed.

(** *** The loop over the messages *)

Lemma grows_refl (w : world) : grows w w.
Proof.
  unfold grows. repeat split; try lia.
  exists []. now rewrite app_nil_r.
Qed.

Lemma grows_trans (w1 w2 w3 : world) : grows w1 w2 -> grows w2 w3 -> grows w1 w3.
Proof.
  unfold grows.
  intros (?&?&?&?&?&t1&Ht1&Hi1) (?&?&?&?&?&t2&Ht2&Hi2).
  repeat split; try lia.
  exists (t1 ++ t2). rewrite Ht2, Ht1, app_assoc, forallb_app, Hi1, Hi2.
  now split.
Qed.

Lemma grows_after (w : world) (d : delta) :
  attachments_only d -> grows w (after w d).
Proof.
  unfold attachments_only, grows, after. intros (?&?&?&?&?&?&?). simpl.
  repeat split; try lia. now exists (d_trace d).
Qed.

Lemma process_message_build (mb : mbox_file) (m : message) (c : Z) (w : world) :
  process_message py mb m c w
  = bind (build py m)
         (fun email_msg =>
            mbox_add mb email_msg ;;
            add_processed_emails 1 ;;
            processed <- get_processed_emails ;;
            (if processed mod 100 =? 0
             then logger (Info_processed_emails processed)
             else ret tt) ;;
            ret (c + 1)) w.
Proof.
  unfold process_message, build, bind.
  destruct (folder_path_of m w) as [[fp|x] w1]; reflexivity.
Qed.

(** What one pass through the [try] body of the loop does. *)
Lemma process_message_run (mb : mbox_file) (m : message) (c : Z) (w : world) :
  match built py m with
  | Raise x =>
      exists w', process_message py mb m c w = (Raise x, w') /\ grows w w' /\
                 processed_emails w' = processed_emails w /\
                 failed_emails w' = failed_emails w /\ mbox w' = mbox w
  | Ok e =>
      match add_error mb e with
      | Some x =>
          exists w', process_message py mb m c w = (Raise x, w') /\ grows w w' /\
                     processed_emails w' = processed_emails w /\
                     failed_emails w' = failed_emails w /\ mbox w' = mbox w
      | None =>
          exists w', process_message py mb m c w = (Ok (c + 1), w') /\
                     grows w w' /\
                     processed_emails w' = processed_emails w + 1 /\
                     failed_emails w' = failed_emails w /\
                     mbox w' = mbox w ++ [e]
      end
  end.
Proof.
  destruct (build_writes m) as (d & Hw & Hd).
  pose proof (grows_after w Hd) as Hg.
  pose proof (process_message_build mb m c w) as E.
  unfold bind at 1 in E. rewrite Hw in E.
  destruct Hd as (Hp & Hf & _ & _ & _ & Hm & _).
  assert (Hfail : processed_emails (after w d) = processed_emails w /\
                  failed_emails (after w d) = failed_emails w /\
                  mbox (after w d) = mbox w).
  { cbn. rewrite Hp, Hf, Hm, app_nil_r. repeat split; lia. }
  destruct (built py m) as [e|x].
  - unfold mbox_add, or_raise in E.
    destruct (add_error mb e) as [x|].
    + exists (after w d). split; [exact E|]. now split.
    + rewrite E. clear E.
      unfold bind, ret, emit, append_record, add_processed_emails,
        get_processed_emails, raise, logger, emit.
      cbn -[Z.modulo Z.add].
      destruct Hg as (?&?&?&?&?&t&Ht&Hi). cbn -[Z.add] in *.
      match goal with
      | |- context [if ?b then _ else _] => destruct b
      end.
      * eexists. split; [reflexivity|]. cbn -[Z.add].
        rewrite Hp, Hf, Hm, !app_nil_r. cbn -[Z.add].
        split; [|repeat split; try reflexivity; lia].
        unfold grows. cbn -[Z.add].
        do 5 (split; [lia|]).
        eexists. rewrite Ht, <- !app_assoc. split; [reflexivity|].
        rewrite forallb_app, Hi. reflexivity.
      * eexists. split; [reflexivity|]. cbn -[Z.add].
        rewrite Hp, Hf, Hm, !app_nil_r. cbn -[Z.add].
        split; [|repeat split; try reflexivity; lia].
        unfold grows. cbn -[Z.add].
        do 5 (split; [lia|]).
        eexists. rewrite Ht, <- !app_assoc. split; [reflexivity|].
        rewrite forallb_app, Hi. reflexivity.
  - exists (after w d). split; [exact E|]. now split.
Qed.

(** The world after the [except] clause of the loop has counted a
    failure: [self.failed_emails += 1] and the error log line. *)
Lemma failure_counted (c : Z) (x : exn) (w : world) :
  let w' := snd ((add_failed_emails 1 ;;
                  logger (Error_failed_to_process_message c x)) w) in
  grows w w' /\
  processed_emails w' = processed_emails w /\
  failed_emails w' = failed_emails w + 1 /\
  mbox w' = mbox w.
Proof.
  cbn. unfold grows. cbn.
  repeat split; try lia.
  now exists [Log (Error_failed_to_process_message c x)].
Qed.

Lemma for_each_message_cons (mb : mbox_file) (m : message)
      (msgs : list message) (c : Z) (w : world) :
  for_each_message py mb (m :: msgs) c w
  = match process_message py mb m c w with
    | (Ok c', w') => for_each_message py mb msgs c' w'
    | (Raise x, w') =>
        if is_Exception x then
          for_each_message py mb msgs c
            (snd ((add_failed_emails 1 ;;
                   logger (Error_failed_to_process_message c x)) w'))
        else (Raise x, w')
    end.
Proof.
  cbn [for_each_message]. unfold bind at 1, attempt.
  destruct (process_message py mb m c w) as [[c'|x] w']; [reflexivity|].
  destruct (is_Exception x); reflexivity.
Qed.

Lemma for_each_message_app (mb : mbox_file) (l1 l2 : list message)
      (c : Z) (w : world) :
  for_each_message py mb (l1 ++ l2) c w
  = match for_each_message py mb l1 c w with
    | (Ok c', w') => for_each_message py mb l2 c' w'
    | (Raise x, w') => (Raise x, w')
    end.
Proof.
  revert c w. induction l1 as [|m l1 IH]; intros c w.
  - reflexivity.
  - rewrite <- app_comm_cons, !for_each_message_cons.
    destruct (process_message py mb m c w) as [[c'|x] w']; [apply IH|].
    destruct (is_Exception x); [apply IH | reflexivity].
Qed.

Lemma for_each_message_grows (mb : mbox_file) (msgs : list message)
      (c : Z) (w : world) :
  grows w (snd (for_each_message py mb msgs c w)).
Proof.
  revert c w. induction msgs as [|m msgs IH]; intros c w.
  - apply grows_refl.
  - rewrite for_each_message_cons.
    pose proof (process_message_run mb m c w) as H.
    destruct (built py m) as [e|x]; [destruct (add_error mb e) as [x|]|];
      destruct H as (w' & -> & Hg & _).
    + destruct (is_Exception x); [|exact Hg].
      eapply grows_trans; [exact Hg|].
      eapply grows_trans; [apply (failure_counted c x w') | apply IH].
    + eapply grows_trans; [exact Hg | apply IH].
    + destruct (is_Exception x); [|exact Hg].
      eapply grows_trans; [exact Hg|].
      eapply grows_trans; [apply (failure_counted c x w') | apply IH].
Qed.

(** A loop over messages that all convert. *)
Lemma for_each_message_delivers (mb : mbox_file) (msgs : list message)
      (es : list email_message) :
  Forall2 (delivers py mb) msgs es ->
  forall c w,
  exists w',
    for_each_message py mb msgs c w = (Ok (c + Z.of_nat (List.length msgs)), w') /\
    processed_emails w' = processed_emails w + Z.of_nat (List.length msgs) /\
    failed_emails w' = failed_emails w /\
    mbox w' = mbox w ++ es.
Proof.
  induction 1 as [|m e msgs es [Hb Ha] _ IH]; intros c w.
  - exists w. cbn. rewrite Z.add_0_r, Z.add_0_r, app_nil_r. auto.
  - rewrite for_each_message_cons.
    pose proof (process_message_run mb m c w) as H.
    rewrite Hb, Ha in H. destruct H as (w1 & -> & _ & Hp & Hf & Hm).
    destruct (IH (c + 1) w1) as (w' & -> & Hp' & Hf' & Hm').
    exists w'. rewrite Hp', Hf', Hm', Hp, Hf, Hm, <- app_assoc.
    cbn [List.length app]. repeat split; try lia.
    do 2 f_equal. lia.
Qed.

Lemma process_messages_grows (archive : pff_archive datetime)
      (mb : mbox_file) (w : world) :
  grows w (snd (process_messages py archive mb w)).
Proof.
  unfold process_messages, try_except.
  unfold bind at 1. unfold attempt. unfold bind at 1.
  unfold logger at 1, emit at 1. unfold bind at 1.
  match goal with
  | |- context [for_each_message py mb ?l ?c ?w0] =>
      pose proof (for_each_message_grows mb l c w0) as Hg;
      destruct (for_each_message py mb l c w0) as [[c'|x] w1]
  end.
  - assert (grows w w1) as Hg1.
    { eapply grows_trans; [|exact Hg]. unfold grows. cbn.
      repeat split; try lia. now exists [Log Info_processing_messages]. }
    destruct (messages_error archive) as [x|]; cbn.
    + destruct (is_Exception x); cbn; [|exact Hg1].
      eapply grows_trans; [exact Hg1|]. unfold grows. cbn.
      repeat split; try lia.
      now exists [Log (Error_failed_to_process_messages x)].
    + eapply grows_trans; [exact Hg1|]. unfold grows. cbn.
      repeat split; try lia.
      now exists [Log (Info_finished_processing c')].
  - assert (grows w w1) as Hg1.
    { eapply grows_trans; [|exact Hg]. unfold grows. cbn.
      repeat split; try lia. now exists [Log Info_processing_messages]. }
    cbn. destruct (is_Exception x); cbn; [|exact Hg1].
    eapply grows_trans; [exact Hg1|]. unfold grows. cbn.
    repeat split; try lia.
    now exists [Log (Error_failed_to_process_messages x)].
Qed.

(* =================================================================== *)
(** ** Main results *)
(* =================================================================== *)

(** *** Safe field accessor *)

(** C4 (as amended): when the read of the field raises, the accessor
    returns the supplied default if the exception is an instance of
    SystemError, ValueError (so also UnicodeDecodeError and
    UnicodeEncodeError) or OverflowError, logging a debug line, and if
    the attribute is missing; an exception of any other class propagates
    to the caller. *)
Theorem safe_get_attr_guards_read_errors
        {O T} (obj : O) (name : O -> attr T) (default : option T)
        (e : exn) (w : world) :
  name obj = Raise e ->
  (catches pst_read_errors e = true ->
   safe_get_attr obj name default w
   = (Ok default, snd (logger (Debug_failed_to_read_attribute e) w))) /\
  (e = AttributeError -> safe_get_attr obj name default w = (Ok default, w)) /\
  (catches pst_read_errors e = false -> e <> AttributeError ->
   safe_get_attr obj name default w = (Raise e, w)).
Proof.
  intros H.
  unfold safe_get_attr, try_except, bind, attempt, lift, getattr, ret, raise.
  rewrite H.
  repeat split.
  - intros Hc. destruct e; try discriminate Hc; reflexivity.
  - intros ->. now destruct default.
  - intros Hc Hne. destruct e; try discriminate Hc; try reflexivity.
    now contradiction Hne.
Qed.

(** C10: a field that is present but holds None reads as the supplied
    default, and so does a field that is absent: the two cannot be told
    apart through the accessor. *)
Theorem safe_get_attr_none_is_default
        {O T} (obj absent : O) (name : O -> attr T) (default : option T)
        (w : world) :
  name obj = Ok None ->
  name absent = Raise AttributeError ->
  safe_get_attr obj name default w = (Ok default, w) /\
  safe_get_attr absent name default w = safe_get_attr obj name default w.
Proof.
  intros H Ha.
  unfold safe_get_attr, try_except, bind, attempt, lift, getattr, ret.
  rewrite H, Ha. split; [reflexivity | now destruct default].
Qed.

(** *** Address formatter *)


(** *** Record builder *)

Lemma extract_attachments_none (m : message) (w : world) :
  Message.number_of_attachments m = Ok (Some 0) ->
  extract_attachments m w = (Ok [], w).
Proof.
  intros H. unfold extract_attachments, hasattr, bind, attempt, lift, ret.
  rewrite H. reflexivity.
Qed.

(** C1: a message with no attachments whose plain-text and HTML bodies
    are both non-empty is built as multipart/alternative with exactly
    two parts, the plain text first and the HTML second. *)
Theorem alternative_when_both_bodies_and_no_attachments
        (m : message) (folder_path : option pystr)
        (body_text body_html : pystr) (w w' : world) (msg : email_message) :
  Message.number_of_attachments m = Ok (Some 0) ->
  Message.plain_text_body m = Ok (Some body_text) -> body_text <> [] ->
  Message.html_body m = Ok (Some body_html) -> body_html <> [] ->
  convert_pst_message_to_email py m folder_path w = (Ok msg, w') ->
  root msg = MIMEMultipart "alternative"
               [MIMEText body_text "plain" "utf-8";
                MIMEText body_html "html" "utf-8"].
Proof.
  intros Hn Hp Hpt Hh Hht H.
  unfold convert_pst_message_to_email, try_except in H.
  unfold bind at 1, attempt in H.
  unfold bind at 1 in H. rewrite (safe_get_attr_value _ _ _ _ Hp) in H.
  unfold bind at 1 in H. rewrite (safe_get_attr_value _ _ _ _ Hh) in H.
  unfold bind at 1 in H. rewrite (extract_attachments_none m w Hn) in H.
  cbv zeta in H.
  match type of H with
  | context [add_headers py m folder_path ?msg0 w] =>
      destruct (add_headers_root m folder_path msg0) as (r & d & Hw & _ & Hr)
  end.
  rewrite Hw in H.
  destruct r as [msg'|e].
  - cbn in H. inversion H; subst msg' w'. cbn in Hr. rewrite Hr.
    destruct body_text; [contradiction|].
    destruct body_html; [contradiction|]. reflexivity.
  - destruct (is_Exception e); cbn in H; discriminate H.
Qed.

(** *** Attachment extractor *)

(** C2 (as amended): [attachments_found] goes up by the number of
    indices the loop is set to enumerate, once, before they are visited;
    [attachments_extracted] goes up by one for each entry appended
    unless no byte was recovered for it while its declared size is
    positive, so also for an entry with no bytes and declared size 0;
    [attachment_bytes] goes up by the recovered lengths. *)
Theorem extract_attachments_statistics (m : message) (w : world) :
  let (r, w') := extract_attachments m w in
  attachments_found w' = attachments_found w + enumerated m /\
  match r with
  | Ok attachments =>
      attachments_extracted w'
      = attachments_extracted w + count_extracted attachments /\
      attachment_bytes w' = attachment_bytes w + total_bytes attachments
  | Raise _ => True
  end.
Proof.
  destruct (extract_attachments_spec m)
    as (r & d & Hw & _ & _ & _ & _ & Hf & _ & _ & Hr).
  rewrite Hw. cbn. rewrite Hf. split; [reflexivity|].
  destruct r as [attachments|e]; [|exact I].
  destruct (Hr attachments eq_refl) as [-> ->]. now split.
Qed.

(** *** Statistics *)

(** One pass of the loop over the messages.  The outcome of the message
    is settled when the record has been built and handed to
    [mbox_file.add]: up to that point neither [processed_emails] nor
    [failed_emails] has moved, and from there on exactly one of them goes
    up by one, by the outcome. *)
Lemma loop_pass_counts_settled_outcome (mb : mbox_file) (m : message) (c : Z)
      (w : world) :
  let settled := (email_msg <- build py m ;; mbox_add mb email_msg) w in
  let w1 := snd settled in
  let w2 := snd (for_each_message py mb [m] c w) in
  processed_emails w1 = processed_emails w /\
  failed_emails w1 = failed_emails w /\
  match fst settled with
  | Ok _ =>
      processed_emails w2 = processed_emails w1 + 1 /\
      failed_emails w2 = failed_emails w1
  | Raise x =>
      processed_emails w2 = processed_emails w1 /\
      failed_emails w2
      = failed_emails w1 + (if is_Exception x then 1 else 0)
  end /\
  attachments_found w2 = attachments_found w1 /\
  attachments_extracted w2 = attachments_extracted w1 /\
  attachment_bytes w2 = attachment_bytes w1 /\
  mbox w2 = mbox w1 /\
  exists t, trace w2 = trace w1 ++ t.
Proof.
  cbv zeta. rewrite for_each_message_cons, process_message_build.
  destruct (build_writes m) as (d & Hw & Hd).
  cbn [for_each_message]. unfold bind. rewrite !(Hw w).
  destruct Hd as (Hp & Hf & _).
  assert (Hp0 : processed_emails (after w d) = processed_emails w)
    by (cbn; lia).
  assert (Hf0 : failed_emails (after w d) = failed_emails w) by (cbn; lia).
  revert Hp0 Hf0. generalize (after w d). intros w0 Hp0 Hf0.
  destruct (built py m) as [e|x].
  - unfold mbox_add, or_raise, bind.
    destruct (add_error mb e) as [x|].
    + unfold raise. cbn [fst snd].
      destruct (is_Exception x); cbn;
        (do 2 (split; [assumption|]));
        (split; [split; lia|]); repeat (split; [reflexivity|]);
        eexists; (reflexivity || (symmetry; apply app_nil_r)).
    + unfold ret, emit, append_record, add_processed_emails,
        get_processed_emails, raise, logger, emit.
      cbn -[Z.modulo Z.add Z.eqb].
      match goal with
      | |- context [if ?b then _ else _] => destruct b
      end; cbn -[Z.add];
        (do 2 (split; [assumption|]));
        (split; [split; reflexivity|]); repeat (split; [reflexivity|]);
        eexists; (reflexivity || (symmetry; apply app_nil_r)).
  - cbn [fst snd].
    destruct (is_Exception x); cbn;
      (do 2 (split; [assumption|]));
      (split; [split; lia|]); repeat (split; [reflexivity|]);
      eexists; (reflexivity || (symmetry; apply app_nil_r)).
Qed.

(** A run over [m :: msgs] is the pass for [m] followed by the run over
    [msgs], unless the pass was interrupted. *)
Lemma loop_runs_pass_by_pass (mb : mbox_file) (m : message)
      (msgs : list message) (c : Z) (w : world) :
  for_each_message py mb (m :: msgs) c w
  = match for_each_message py mb [m] c w with
    | (Ok c', w2) => for_each_message py mb msgs c' w2
    | (Raise x, w2) => (Raise x, w2)
    end.
Proof.
  rewrite !for_each_message_cons.
  destruct (process_message py mb m c w) as [[c'|x] w1]; [reflexivity|].
  destruct (is_Exception x); reflexivity.
Qed.

(** C8 (as amended): no counter ever goes down during a run;
    [processed_emails] and [failed_emails] are left alone while a record
    is being built, they change only once the outcome for the message is
    known: in every pass of the loop they still hold their old values
    when the record has been built and handed to [mbox_file.add], and
    after that exactly one of them goes up by one, [processed_emails] when
    the message was added and [failed_emails] when building or adding
    raised; and a run is made of such passes, one after the other.  (The
    attachment counters move while the record is being built, and not
    after.) *)
Theorem counters_never_decrease :
  (forall (archive : pff_archive datetime) (mb : mbox_file) (w : world),
      let w' := snd (process_messages py archive mb w) in
      processed_emails w <= processed_emails w' /\
      failed_emails w <= failed_emails w' /\
      attachments_found w <= attachments_found w' /\
      attachments_extracted w <= attachments_extracted w' /\
      attachment_bytes w <= attachment_bytes w') /\
  (forall (m : message) (folder_path : option pystr) (w : world),
      let w' := snd (convert_pst_message_to_email py m folder_path w) in
      processed_emails w' = processed_emails w /\
      failed_emails w' = failed_emails w /\
      attachments_found w <= attachments_found w' /\
      attachments_extracted w <= attachments_extracted w' /\
      attachment_bytes w <= attachment_bytes w') /\
  (forall (mb : mbox_file) (m : message) (c : Z) (w : world),
      let settled := (email_msg <- build py m ;; mbox_add mb email_msg) w in
      let w1 := snd settled in
      let w2 := snd (for_each_message py mb [m] c w) in
      processed_emails w1 = processed_emails w /\
      failed_emails w1 = failed_emails w /\
      match fst settled with
      | Ok _ =>
          processed_emails w2 = processed_emails w1 + 1 /\
          failed_emails w2 = failed_emails w1
      | Raise x =>
          processed_emails w2 = processed_emails w1 /\
          failed_emails w2
          = failed_emails w1 + (if is_Exception x then 1 else 0)
      end /\
      attachments_found w2 = attachments_found w1 /\
      attachments_extracted w2 = attachments_extracted w1 /\
      attachment_bytes w2 = attachment_bytes w1 /\
      mbox w2 = mbox w1 /\
      exists t, trace w2 = trace w1 ++ t) /\
  (forall (mb : mbox_file) (m : message) (msgs : list message) (c : Z)
          (w : world),
      for_each_message py mb (m :: msgs) c w
      = match for_each_message py mb [m] c w with
        | (Ok c', w2) => for_each_message py mb msgs c' w2
        | (Raise x, w2) => (Raise x, w2)
        end).
Proof.
  split; [|split; [|split]].
  - intros archive mb w.
    destruct (process_messages_grows archive mb w) as (?&?&?&?&?&_).
    cbv zeta. repeat split; assumption.
  - intros m fp w.
    destruct (convert_pst_message_to_email_spec m fp)
      as (r & d & Hw & Hp & Hf & ? & ? & ? & _).
    rewrite Hw. cbn. repeat split; lia.
  - apply loop_pass_counts_settled_outcome.
  - apply loop_runs_pass_by_pass.
Qed.

(** *** Conversion driver *)

Lemma process_messages_run (archive : pff_archive datetime) (mb : mbox_file)
      (w w1 : world) (c : Z) :
  messages_error archive = None ->
  for_each_message py mb (messages archive) 0
    (snd (logger Info_processing_messages w)) = (Ok c, w1) ->
  process_messages py archive mb w
  = (Ok tt, snd (logger (Info_finished_processing c) w1)).
Proof.
  intros He H.
  unfold process_messages, try_except.
  unfold bind at 1. unfold attempt. unfold bind at 1.
  unfold logger at 1, emit at 1. unfold bind at 1.
  unfold logger, emit in H. cbn [snd] in H. rewrite H.
  rewrite He. reflexivity.
Qed.

(** C3: in a batch of N messages of which exactly one, at position
    k = [length earlier], raises while its record is built and all others
    convert, the run goes through, [processed_emails] ends at N-1,
    [failed_emails] at 1, and the mbox file holds the N-1 records of the
    other messages in their original order. *)
Theorem one_failure_is_isolated
        (mb : mbox_file) (earlier later : list message) (m : message)
        (es1 es2 : list email_message) (x : exn) :
  Forall2 (delivers py mb) earlier es1 ->
  built py m = Raise x -> is_Exception x = true ->
  Forall2 (delivers py mb) later es2 ->
  let archive :=
    {| messages := earlier ++ m :: later; messages_error := None |} in
  let N := Z.of_nat (List.length (messages archive)) in
  exists w',
    process_messages py archive mb fresh = (Ok tt, w') /\
    processed_emails w' = N - 1 /\
    failed_emails w' = 1 /\
    mbox w' = es1 ++ es2.
Proof.
  intros H1 Hb Hx H2 archive N.
  set (w0 := snd (logger Info_processing_messages fresh)).
  destruct (for_each_message_delivers H1 0 w0) as (w1 & E1 & Hp1 & Hf1 & Hm1).
  pose proof (process_message_run mb m (0 + Z.of_nat (List.length earlier)) w1)
    as Hrun.
  rewrite Hb in Hrun. destruct Hrun as (w2 & E2 & _ & Hp2 & Hf2 & Hm2).
  pose proof (failure_counted (0 + Z.of_nat (List.length earlier)) x w2) as Hc.
  cbv zeta in Hc. destruct Hc as (_ & Hp3 & Hf3 & Hm3).
  match type of Hp3 with
  | processed_emails ?w = _ => set (w3 := w) in *
  end.
  destruct (for_each_message_delivers H2 (0 + Z.of_nat (List.length earlier)) w3)
    as (w4 & E4 & Hp4 & Hf4 & Hm4).
  eexists. split.
  - apply process_messages_run; [reflexivity|].
    cbn [messages archive]. fold w0.
    rewrite for_each_message_app, E1, for_each_message_cons, E2, Hx.
    exact E4.
  - cbn [snd logger emit processed_emails failed_emails mbox].
    unfold logger, emit. cbn [snd processed_emails failed_emails mbox].
    rewrite Hp4, Hf4, Hm4, Hp3, Hf3, Hm3, Hp2, Hf2, Hm2, Hp1, Hf1, Hm1.
    subst N. cbn [messages archive]. rewrite length_app. cbn [List.length].
    unfold w0. cbn. repeat split; lia.
Qed.

Lemma process_messages_keeps_loop_trace (archive : pff_archive datetime)
      (mb : mbox_file) (w : world) :
  exists t,
    trace (snd (process_messages py archive mb w))
    = trace (snd (for_each_message py mb (messages archive) 0
                    (snd (logger Info_processing_messages w)))) ++ t.
Proof.
  unfold process_messages, try_except.
  unfold bind at 1. unfold attempt. unfold bind at 1.
  cbn [logger emit snd]. unfold bind at 1.
  match goal with
  | |- context [for_each_message py mb ?l ?c ?w0] =>
      destruct (for_each_message py mb l c w0) as [[c'|x] w1]
  end.
  - destruct (messages_error archive) as [x|]; cbn.
    + destruct (is_Exception x); cbn; eexists; [reflexivity|].
      now rewrite app_nil_r.
    + eexists. reflexivity.
  - cbn. destruct (is_Exception x); cbn; eexists; [reflexivity|].
    now rewrite app_nil_r.
Qed.

(** When no earlier message failed, the failure line does carry the
    position of the failing message. *)
Lemma first_failure_logged_with_its_position
      (mb : mbox_file) (earlier later : list message) (m : message)
      (es1 : list email_message) (x : exn) :
  Forall2 (delivers py mb) earlier es1 ->
  built py m = Raise x -> is_Exception x = true ->
  In (Log (Error_failed_to_process_message (Z.of_nat (List.length earlier)) x))
     (trace (snd (process_messages py
                    {| messages := earlier ++ m :: later;
                       messages_error := None |} mb fresh))).
Proof.
  intros H1 Hb Hx.
  destruct (process_messages_keeps_loop_trace
              {| messages := earlier ++ m :: later; messages_error := None |}
              mb fresh) as [t ->].
  apply in_or_app. left. cbn [messages].
  set (w0 := snd (logger Info_processing_messages fresh)).
  destruct (for_each_message_delivers H1 0 w0) as (w1 & E1 & _).
  pose proof (process_message_run mb m (0 + Z.of_nat (List.length earlier)) w1)
    as Hrun.
  rewrite Hb in Hrun. destruct Hrun as (w2 & E2 & _).
  rewrite for_each_message_app, E1, for_each_message_cons, E2, Hx.
  match goal with
  | |- context [for_each_message py mb later ?c ?w3] =>
      destruct (for_each_message_grows mb later c w3)
        as (_ & _ & _ & _ & _ & t' & -> & _)
  end.
  apply in_or_app. left. cbn. apply in_or_app. right. now left.
Qed.

Lemma inner_not_unlock (t : list event) :
  forallb inner t = true ->
  forallb (fun ev => negb (is_unlock ev)) t = true /\
  forallb (fun ev => negb (is_report ev)) t = true.
Proof.
  induction t as [|ev t IH]; cbn [forallb]; [now split|].
  intros [Hev Ht]%andb_prop. destruct (IH Ht) as [-> ->].
  destruct ev as [[]| | | | |]; try discriminate Hev; now split.
Qed.

(** C7: once the lock on the mbox file is taken, [unlock] is called
    exactly once, whether the messages are processed to the end or an
    exception gets out of the processing or of the flush, and it is
    called before [convert] logs the outcome of the run. *)
Theorem lock_released_exactly_once
        (env : @environment datetime) (archive : pff_archive datetime)
        (mb : mbox_file) (w : world) :
  validate_files env = Ok tt ->
  PffArchive env = Ok archive ->
  mailbox_mbox env = Ok mb ->
  lock_error env = None ->
  exists t1 t2,
    trace (snd (convert py env w)) = trace w ++ t1 ++ Mbox_unlock :: t2 /\
    existsb is_lock t1 = true /\
    forallb (fun ev => negb (is_unlock ev)) (t1 ++ t2) = true /\
    forallb (fun ev => negb (is_report ev)) t1 = true.
Proof.
  intros Hv Ha Hm Hl.
  unfold convert, try_except, try_finally, open_pst_file, try_except,
    final_statistics.
  unfold bind, attempt, logger, emit, lift, or_raise, ret, raise.
  rewrite Hv, Ha, Hm, Hl. cbn -[process_messages].
  match goal with
  | |- context [process_messages py archive mb ?w0] =>
      pose proof (process_messages_grows archive mb w0) as Hg;
      destruct (process_messages py archive mb w0) as [r w1]
  end.
  destruct Hg as (_ & _ & _ & _ & _ & t & Ht & Hi). cbn in Ht.
  destruct (inner_not_unlock t Hi) as [Hu Hr].
  destruct r as [[]|x].
  - exists ([Log Info_starting_conversion; Log Info_opened_pst; Mbox_lock]
            ++ t ++ [Mbox_flush]).
    repeat (cbn;
            match goal with
            | |- context [if is_Exception ?e then _ else _] =>
                destruct (is_Exception e)
            | |- context [match ?o with Some _ => _ | None => _ end] =>
                destruct o
            end);
      cbn; rewrite Ht, <- !app_assoc; cbn;
      (eexists; split; [rewrite <- ?app_assoc; reflexivity|]);
      rewrite <- ?app_assoc, !forallb_app, Hu, Hr; cbn; auto.
  - exists ([Log Info_starting_conversion; Log Info_opened_pst; Mbox_lock]
            ++ t).
    repeat (cbn;
            match goal with
            | |- context [if is_Exception ?e then _ else _] =>
                destruct (is_Exception e)
            | |- context [match ?o with Some _ => _ | None => _ end] =>
                destruct o
            end);
      cbn; rewrite Ht, <- !app_assoc; cbn;
      (eexists; split; [rewrite <- ?app_assoc; reflexivity|]);
      rewrite !forallb_app, Hu, Hr; cbn; auto.
Qed.

(** *** Header recovery *)

Lemma literal_needs_prefix (pfx : pystr) (pat : Re.pattern) (mk : Re.marks)
      (prev : option N) (s : pystr) (pos : nat) :
  starts_with_ignore_case pfx s = false ->
  Re.sre_match (List.map Re.LITERAL_IGNORE pfx ++ pat) mk prev s pos = None.
Proof.
  revert prev s pos.
  induction pfx as [|p pfx IH]; intros prev s pos H; [discriminate H|].
  destruct s as [|c s]; [reflexivity|].
  cbn in H |- *. destruct (Re.same_ignore_case p c); [|reflexivity].
  now apply IH.
Qed.

Lemma from_pattern_needs_from_line (prev : option N) (s : pystr) :
  Re.at_beginning_line prev && starts_with_ignore_case (lit "From:") s = false ->
  Re.sre_match Re.from_pattern [] prev s 0 = None.
Proof.
  intros H. unfold Re.from_pattern. cbn [app Re.sre_match].
  destruct (Re.at_beginning_line prev); [|reflexivity].
  unfold Re.literal at 1.
  now apply literal_needs_prefix.
Qed.

(** A prefix that ends its last line cannot hold the beginning of a
    [From:] label that continues after it. *)
Lemma starts_with_within_line (pfx b t : pystr) (c : N) :
  forallb (fun p => negb (Re.same_ignore_case p 10)) pfx = true ->
  Re.at_beginning_line (last_before (Some c) b) = true ->
  starts_with_ignore_case pfx ((c :: b) ++ t)
  = starts_with_ignore_case pfx (c :: b).
Proof.
  revert c b. induction pfx as [|p pfx IH]; intros c b Hp Hl; [reflexivity|].
  cbn [forallb] in Hp. apply andb_prop in Hp. destruct Hp as [Hp1 Hp2].
  cbn [app starts_with_ignore_case].
  destruct b as [|c' b].
  - cbn in Hl. apply N.eqb_eq in Hl. subst c.
    apply negb_true_iff in Hp1. rewrite Hp1. reflexivity.
  - f_equal. apply (IH c' b Hp2). exact Hl.
Qed.

Lemma search_skips_other_lines (before tail : pystr) (prev : option N) :
  line_starts_with (lit "From:") prev before = false ->
  Re.at_beginning_line (last_before prev before) = true ->
  Re.search_from Re.from_pattern prev (before ++ tail)
  = Re.search_from Re.from_pattern (last_before prev before) tail.
Proof.
  revert prev. induction before as [|c b IH]; intros prev Hn Hl.
  - reflexivity.
  - cbn [line_starts_with] in Hn. apply orb_false_elim in Hn.
    destruct Hn as [Hn1 Hn2]. cbn [last_before] in Hl |- *.
    rewrite <- app_comm_cons. cbn [Re.search_from].
    rewrite from_pattern_needs_from_line.
    + now apply IH.
    + rewrite app_comm_cons, starts_with_within_line; auto.
Qed.

Lemma literal_matches (pfx label : pystr) (pat : Re.pattern) (mk : Re.marks)
      (prev : option N) (s : pystr) (pos : nat) :
  List.map Re.lower label = List.map Re.lower pfx ->
  Re.sre_match (List.map Re.LITERAL_IGNORE pfx ++ pat) mk prev (label ++ s) pos
  = Re.sre_match pat mk (last_before prev label) s (List.length label + pos).
Proof.
  revert label prev pos.
  induction pfx as [|p pfx IH]; intros [|c label] prev pos H;
    try discriminate H; [reflexivity|].
  cbn [List.map] in H. injection H as Hc Hrest.
  cbn [List.map app Re.sre_match Re.one last_before List.length].
  unfold Re.same_ignore_case. rewrite Hc, N.eqb_refl.
  rewrite (IH label (Some c) (S pos) Hrest). f_equal. lia.
Qed.

(** C6 (as amended): when the structured sender address is missing and
    the first line of the transport headers that begins with the label
    [From:], in any letter case, is that label followed by
    " Jane Doe <jane@example.com>", the recovered sender is the name
    "Jane Doe" and the address "jane@example.com". *)
Theorem sender_recovered_from_first_from_line
        (sender_name sender_email : option pystr) (before label rest : pystr) :
  truthy_opt truthy_str sender_email = false ->
  List.map Re.lower label = lit "from:" ->
  Re.at_beginning_line (last_before None before) = true ->
  line_starts_with (lit "From:") None before = false ->
  recover_sender sender_name sender_email
    (Some (before ++ label ++ lit " Jane Doe <jane@example.com>" ++ rest))
  = (Some (lit "Jane Doe"), Some (lit "jane@example.com")).
Proof.
  intros He Hlab Hl Hn. unfold recover_sender. rewrite He. cbn [negb andb].
  destruct label as [|c1 [|c2 [|c3 [|c4 [|c5 [|c6 label]]]]]];
    try discriminate Hlab.
  assert (Ht : truthy_opt truthy_str
                 (Some (before ++ [c1; c2; c3; c4; c5]
                          ++ lit " Jane Doe <jane@example.com>" ++ rest))
               = true) by (destruct before; reflexivity).
  rewrite Ht. unfold Re.search.
  rewrite (search_skips_other_lines before _ None Hn Hl).
  assert (Hm : Re.sre_match Re.from_pattern [] (last_before None before)
                 ([c1; c2; c3; c4; c5]
                    ++ lit " Jane Doe <jane@example.com>" ++ rest) 0
               = Some [(3, 32); (2, 16); (1, 14); (0, 6)]%nat).
  { set (text := [c1; c2; c3; c4; c5] ++ _).
    unfold Re.from_pattern. cbn [app Re.sre_match]. rewrite Hl.
    unfold Re.literal at 1. subst text.
    rewrite (literal_matches (lit "From:") [c1; c2; c3; c4; c5]); [|exact Hlab].
    reflexivity. }
  change (([c1; c2; c3; c4; c5] ++ lit " Jane Doe <jane@example.com>" ++ rest))
    with (c1 :: ([c2; c3; c4; c5] ++ lit " Jane Doe <jane@example.com>" ++ rest))
    in Hm |- *.
  cbn [Re.search_from]. rewrite Hm. reflexivity.
Qed.

(* ===================================================================== *)
(** ** Further properties *)
(* ===================================================================== *)

(** *** What gets out of the methods *)

Lemma bind_attempt {A B} (m : M A) (k : outcome A -> M B) (w : world) :
  bind (attempt m) k w = k (fst (m w)) (snd (m w)).
Proof. unfold bind, attempt. destruct (m w) as [r w1]. reflexivity. Qed.

Lemma try_except_no_exception {A} (m : M A) (handler : exn -> M A) (w : world) :
  (forall e w1, no_exception (fst (handler e w1))) ->
  no_exception (fst (try_except m is_Exception handler w)).
Proof.
  intros Hh. unfold try_except. rewrite bind_attempt.
  destruct (fst (m w)) as [a|e]; [exact I|].
  destruct (is_Exception e) eqn:He; [apply Hh | exact He].
Qed.



(** *** Accounting of the loop over the messages *)

Lemma for_each_message_accounts (mb : mbox_file) (msgs : list message)
      (c : Z) (w : world) :
  accounts (List.length msgs) c w (for_each_message py mb msgs c w).
Proof.
  revert c w. induction msgs as [|m msgs IH]; intros c w.
  - cbn. exists []. rewrite app_nil_r. cbn. repeat split; lia.
  - rewrite for_each_message_cons.
    pose proof (process_message_run mb m c w) as H.
    assert (Hfail : forall x w1,
               processed_emails w1 = processed_emails w ->
               failed_emails w1 = failed_emails w -> mbox w1 = mbox w ->
               accounts (List.length (m :: msgs)) c w
                 (if is_Exception x
                  then for_each_message py mb msgs c
                         (snd ((add_failed_emails 1 ;;
                                logger (Error_failed_to_process_message c x)) w1))
                  else (Raise x, w1))).
    { intros x w1 Hp Hf Hm.
      destruct (is_Exception x) eqn:Hx.
      - destruct (failure_counted c x w1) as (_ & Hp3 & Hf3 & Hm3).
        match type of Hp3 with
        | processed_emails ?w3 = _ =>
            specialize (IH c w3); set (w2 := w3) in *
        end.
        unfold accounts in *.
        destruct (for_each_message py mb msgs c w2) as [r w'].
        destruct IH as (added & I1 & I2 & I3 & I4 & I5 & I6).
        rewrite Hm3, Hp3, Hf3, Hm, Hp, Hf in *.
        exists added. cbn [List.length].
        repeat split; try lia; try exact I1.
        destruct r; [lia | exact I6].
      - exists []. rewrite Hp, Hf, Hm, app_nil_r.
        cbn [List.length]. repeat split; try lia. exact Hx. }
    destruct (built py m) as [e|x]; [destruct (add_error mb e) as [x|]|].
    + destruct H as (w1 & E & _ & Hp & Hf & Hm). rewrite E. now apply Hfail.
    + destruct H as (w1 & E & _ & Hp & Hf & Hm). rewrite E.
      specialize (IH (c + 1) w1). unfold accounts in *.
      destruct (for_each_message py mb msgs (c + 1) w1) as [r w'].
      destruct IH as (added & I1 & I2 & I3 & I4 & I5 & I6).
      rewrite Hm, Hp, Hf in *.
      exists (e :: added). rewrite I1, <- app_assoc. cbn [List.length app].
      repeat split; try reflexivity; try lia.
      destruct r; [lia | exact I6].
    + destruct H as (w1 & E & _ & Hp & Hf & Hm). rewrite E. now apply Hfail.
Qed.

Lemma process_messages_unfold (archive : pff_archive datetime)
      (mb : mbox_file) (w : world) :
  process_messages py archive mb w
  = match for_each_message py mb (messages archive) 0
            (snd (logger Info_processing_messages w)) with
    | (Ok c, w1) =>
        match messages_error archive with
        | None => (Ok tt, snd (logger (Info_finished_processing c) w1))
        | Some x =>
            if is_Exception x
            then (Ok tt, snd (logger (Error_failed_to_process_messages x) w1))
            else (Raise x, w1)
        end
    | (Raise x, w1) =>
        if is_Exception x
        then (Ok tt, snd (logger (Error_failed_to_process_messages x) w1))
        else (Raise x, w1)
    end.
Proof.
  unfold process_messages, try_except.
  unfold bind at 1. unfold attempt. unfold bind at 1.
  cbn [logger emit snd]. unfold bind at 1.
  match goal with
  | |- context [for_each_message py mb ?l ?c ?w0] =>
      destruct (for_each_message py mb l c w0) as [[c'|x] w1]
  end.
  - destruct (messages_error archive) as [x|]; cbn; [|reflexivity].
    destruct (is_Exception x); reflexivity.
  - cbn. destruct (is_Exception x); reflexivity.
Qed.

(** X3: whatever the messages do, the records appended to the mbox file
    are as many as [processed_emails] went up, and [processed_emails] and
    [failed_emails] together went up by at most the number of messages;
    when [process_messages] returns, every message was counted exactly
    once, as processed or as failed. *)
Theorem every_message_is_counted_once
        (archive : pff_archive datetime) (mb : mbox_file) (w : world) :
  let r := fst (process_messages py archive mb w) in
  let w' := snd (process_messages py archive mb w) in
  let p := processed_emails w' - processed_emails w in
  let f := failed_emails w' - failed_emails w in
  (exists added,
      mbox w' = mbox w ++ added /\ Z.of_nat (List.length added) = p) /\
  0 <= p /\ 0 <= f /\
  p + f <= Z.of_nat (List.length (messages archive)) /\
  (r = Ok tt -> p + f = Z.of_nat (List.length (messages archive))).
Proof.
  cbv zeta. rewrite process_messages_unfold.
  match goal with
  | |- context [for_each_message py mb ?l ?c ?w0] =>
      pose proof (for_each_message_accounts mb l c w0) as H;
      unfold accounts in H;
      destruct (for_each_message py mb l c w0) as [[c'|x] w1]
  end;
    destruct H as (added & H1 & H2 & H3 & H4 & H5 & H6);
    cbn [snd logger emit processed_emails failed_emails mbox] in *.
  - destruct H6 as [H6 _].
    destruct (messages_error archive) as [x|];
      [destruct (is_Exception x)|];
      cbn [fst snd logger emit processed_emails failed_emails mbox];
      (split; [exists added; split; [exact H1 | lia]|]);
      (split; [lia|]); (split; [lia|]); (split; [lia|]);
      intros Hr; (lia || discriminate Hr).
  - rewrite H6.
    cbn [fst snd logger emit processed_emails failed_emails mbox];
      (split; [exists added; split; [exact H1 | lia]|]);
      (split; [lia|]); (split; [lia|]); (split; [lia|]);
      intros Hr; (lia || discriminate Hr).
Qed.

(** *** Outcome of a run *)

Lemma for_each_message_returns (mb : mbox_file) (msgs : list message) :
  Forall (fun m =>
            match built py m with
            | Raise e => is_Exception e = true
            | Ok msg =>
                match add_error mb msg with
                | Some e => is_Exception e = true
                | None => True
                end
            end) msgs ->
  forall c w, exists c', fst (for_each_message py mb msgs c w) = Ok c'.
Proof.
  induction 1 as [|m msgs Hm _ IH]; intros c w.
  - now exists c.
  - rewrite for_each_message_cons.
    pose proof (process_message_run mb m c w) as H.
    destruct (built py m) as [e|x]; [destruct (add_error mb e) as [x|]|];
      destruct H as (w1 & -> & _); rewrite ?Hm; apply IH.
Qed.

Lemma process_messages_returns (archive : pff_archive datetime)
      (mb : mbox_file) (w : world) :
  interrupt_free py mb archive ->
  fst (process_messages py archive mb w) = Ok tt.
Proof.
  intros [Hm He]. rewrite process_messages_unfold.
  match goal with
  | |- context [for_each_message py mb ?l ?c ?w0] =>
      destruct (for_each_message_returns mb Hm c w0) as [c' Hc];
      destruct (for_each_message py mb l c w0) as [r w1]
  end.
  cbn in Hc. subst r.
  destruct (messages_error archive) as [x|]; [rewrite He|]; reflexivity.
Qed.

(** X4: a run in which the files validate, the PST file opens, the mbox
    file is created, locked, flushed, unlocked and closed, and nothing
    interrupts the processing, returns True, however many of the messages
    fail. *)
Theorem run_succeeds_despite_message_failures
        (env : @environment datetime) (archive : pff_archive datetime)
        (mb : mbox_file) (w : world) :
  validate_files env = Ok tt ->
  PffArchive env = Ok archive ->
  mailbox_mbox env = Ok mb ->
  lock_error env = None ->
  flush_error mb = None -> unlock_error mb = None -> close_error mb = None ->
  statistics_error env = None ->
  interrupt_free py mb archive ->
  fst (convert py env w) = Ok true.
Proof.
  intros Hv Ha Hm Hl Hf Hu Hc Hs Hi.
  unfold convert, try_except, try_finally, open_pst_file, try_except,
    final_statistics.
  unfold bind, attempt, logger, emit, lift, or_raise, ret, raise.
  rewrite Hv, Ha, Hm, Hl, Hf, Hu, Hc, Hs. cbn -[process_messages].
  match goal with
  | |- context [process_messages py archive mb ?w0] =>
      pose proof (process_messages_returns w0 Hi) as Hr;
      destruct (process_messages py archive mb w0) as [r w1]
  end.
  cbn in Hr. subst r. reflexivity.
Qed.

(** X5: when the run stops with an instance of [Exception] before the
    lock is taken, [convert] returns False, the mbox file and the counters
    are untouched, and the run leaves nothing but log lines, the last of
    which reports the exception. *)
Theorem failure_before_lock_touches_nothing
        (env : @environment datetime) (e : exn) (w : world) :
  fails_before_lock env e -> is_Exception e = true ->
  let w' := snd (convert py env w) in
  fst (convert py env w) = Ok false /\
  mbox w' = mbox w /\
  processed_emails w' = processed_emails w /\
  failed_emails w' = failed_emails w /\
  exists lines,
    trace w' = trace w ++ List.map Log (lines ++ [Error_conversion_failed e]).
Proof.
  intros H He. cbv zeta.
  unfold convert, try_except, try_finally, open_pst_file, try_except,
    final_statistics.
  unfold bind, attempt, logger, emit, lift, or_raise, ret, raise.
  destruct H as [Hv | [(Hv & -> & e0 & Ha & He0)
                      | [(Hv & [a Ha] & Hm) | (Hv & [a Ha] & [mb Hm] & Hl)]]].
  - rewrite Hv. cbn. rewrite He. cbn. repeat split.
    exists [Info_starting_conversion]. now rewrite <- app_assoc.
  - rewrite Hv, Ha. cbn. rewrite He0. cbn. repeat split.
    exists [Info_starting_conversion]. now rewrite <- app_assoc.
  - rewrite Hv, Ha, Hm. cbn. rewrite He. cbn. repeat split.
    exists [Info_starting_conversion; Info_opened_pst].
    now rewrite <- !app_assoc.
  - rewrite Hv, Ha, Hm, Hl. cbn. rewrite He. cbn. repeat split.
    exists [Info_starting_conversion; Info_opened_pst].
    now rewrite <- !app_assoc.
Qed.

(** *** Shape of the built record *)

Lemma spec_result {A} (m : M A) (P : outcome A -> delta -> Prop)
      (w w' : world) (r : outcome A) :
  spec m P -> m w = (r, w') -> exists d, P r d.
Proof.
  intros (r0 & d & Hw & HP) H. rewrite Hw in H. inversion H; subst.
  now exists d.
Qed.

Lemma or_str_body_of (m : message) (name : message -> attr pystr)
      (r : outcome (option pystr)) (d : delta) :
  writes (safe_get_attr m name (Some [])) r d ->
  match r with Ok v => or_str v [] = body_of m name | Raise _ => True end.
Proof.
  intros W. unfold body_of. rewrite (writes_fst fresh W). now destruct r.
Qed.

(** A record that was built went through the header assembly with the
    MIME structure chosen from the bodies and the attachments of the
    message. *)
Lemma convert_ok_inv (m : message) (fp : option pystr) (w w' : world)
      (msg : email_message) :
  convert_pst_message_to_email py m fp w = (Ok msg, w') ->
  exists w1,
    add_headers py m fp
      (new_message
         (message_structure (body_of m (@Message.plain_text_body _))
            (body_of m (@Message.html_body _)) (attachments_of m)))
      w1 = (Ok msg, w').
Proof.
  intros H.
  destruct (safe_get_attr_quiet m (@Message.plain_text_body _) (Some []))
    as (r1 & d1 & W1 & _).
  destruct (safe_get_attr_quiet m (@Message.html_body _) (Some []))
    as (r2 & d2 & W2 & _).
  destruct (extract_attachments_spec m) as (r3 & d3 & W3 & _).
  pose proof (or_str_body_of W1) as B1.
  pose proof (or_str_body_of W2) as B2.
  assert (B3 : match r3 with Ok l => l = attachments_of m | Raise _ => True end).
  { unfold attachments_of. rewrite (writes_fst fresh W3). now destruct r3. }
  unfold convert_pst_message_to_email, try_except in H.
  rewrite bind_attempt in H.
  match type of H with
  | context [fst (?body w)] => remember (body w) as rw eqn:E
  end.
  unfold bind at 1 in E. rewrite W1 in E.
  destruct r1 as [bt|e];
    [|subst rw; cbn in H; destruct (is_Exception e); discriminate H].
  unfold bind at 1 in E. rewrite W2 in E.
  destruct r2 as [bh|e];
    [|subst rw; cbn in H; destruct (is_Exception e); discriminate H].
  unfold bind at 1 in E. rewrite W3 in E.
  destruct r3 as [l|e];
    [|subst rw; cbn in H; destruct (is_Exception e); discriminate H].
  cbv zeta in E. rewrite B1, B2, B3 in E.
  exists (after (after (after w d1) d2) d3).
  rewrite <- E. clear E.
  destruct rw as [[msg'|e] w2]; cbn in H.
  - inversion H; subst. reflexivity.
  - destruct (is_Exception e); discriminate H.
Qed.

Lemma built_root (m : message) (fp : option pystr) (w w' : world)
      (msg : email_message) :
  convert_pst_message_to_email py m fp w = (Ok msg, w') ->
  root msg = message_structure (body_of m (@Message.plain_text_body _))
               (body_of m (@Message.html_body _)) (attachments_of m).
Proof.
  intros H. destruct (convert_ok_inv _ _ _ H) as [w1 H1].
  destruct (@spec_result _ _ _ _ _ _ (add_headers_root _ _ _) H1)
    as [d [_ Hr]].
  exact Hr.
Qed.

Lemma attachment_parts (attachments : list att_info) :
  Forall2 (fun a part =>
             exists payload,
               data a = Some payload /\
               part = MIMEBase "application" "octet-stream" payload true
                        (lit "attachment; filename=" ++ quote
                           ++ filename a ++ quote))
          (filter recovered attachments)
          (flat_map
             (fun att =>
                match data att with
                | Some payload =>
                    if truthy_bytes payload then
                      [MIMEBase "application" "octet-stream" payload true
                         (lit "attachment; filename=" ++ quote
                            ++ filename att ++ quote)]
                    else []
                | None => []
                end) attachments).
Proof.
  induction attachments as [|a l IH]; cbn [filter flat_map]; [constructor|].
  unfold recovered at 1.
  destruct (data a) as [payload|] eqn:Hd; [|exact IH].
  destruct (truthy_bytes payload); [|exact IH].
  cbn [app]. constructor; [|exact IH]. now exists payload.
Qed.

Lemma body_of_content (m : message) (name : message -> attr pystr) :
  body_of m name = content (name m).
Proof.
  unfold body_of, content, safe_get_attr, try_except, bind, attempt, lift,
    getattr, ret, raise, logger, emit.
  destruct (name m) as [[s|]|e]; [| |destruct e]; cbn; try reflexivity.
  now destruct s.
Qed.

(** X6: when attachment extraction returns at least one entry, the
    record is multipart/mixed.  Its first part carries the bodies: plain
    text and HTML as multipart/alternative when both are there, the one
    that is there alone, the placeholder "(No content)" when neither is.
    Then comes one base64 [application/octet-stream] part, named after the
    entry, for each entry that holds recovered bytes, in order.  Entries
    without bytes add no part, so a record can be multipart/mixed with the
    body part alone. *)
Theorem mixed_has_one_part_per_recovered_attachment
        (m : message) (fp : option pystr) (w w' : world) (msg : email_message) :
  attachments_of m <> [] ->
  convert_pst_message_to_email py m fp w = (Ok msg, w') ->
  exists parts,
    root msg
    = MIMEMultipart "mixed"
        (body_part (content (Message.plain_text_body m))
                   (content (Message.html_body m)) :: parts) /\
    Forall2 (fun a part =>
               exists payload,
                 data a = Some payload /\
                 part = MIMEBase "application" "octet-stream" payload true
                          (lit "attachment; filename=" ++ quote
                             ++ filename a ++ quote))
            (filter recovered (attachments_of m)) parts.
Proof.
  intros Ha H. rewrite (built_root _ _ _ H).
  rewrite !body_of_content.
  unfold message_structure.
  destruct (attachments_of m) as [|a l] eqn:E; [contradiction|].
  eexists. split; [|apply attachment_parts].
  do 2 f_equal. unfold body_part.
  destruct (content (Message.plain_text_body m)),
    (content (Message.html_body m)); reflexivity.
Qed.

Lemma body_of_nothing (m : message) (name : message -> attr pystr) :
  yields_nothing (name m) = true -> body_of m name = [].
Proof.
  unfold yields_nothing, body_of, safe_get_attr, try_except, bind, attempt,
    lift, getattr, ret, raise.
  destruct (name m) as [[s|]|e].
  - destruct s; [reflexivity | discriminate].
  - reflexivity.
  - destruct e; cbn; intros H; try reflexivity; discriminate H.
Qed.

(** X7: a message without attachments whose plain-text and HTML bodies
    both give nothing (missing, None, empty, or unreadable with one of
    the guarded errors) still converts to a single plain-text part holding
    the placeholder "(No content)". *)
Theorem placeholder_for_unreadable_bodies
        (m : message) (fp : option pystr) (w w' : world) (msg : email_message) :
  Message.number_of_attachments m = Ok (Some 0) ->
  yields_nothing (Message.plain_text_body m) = true ->
  yields_nothing (Message.html_body m) = true ->
  convert_pst_message_to_email py m fp w = (Ok msg, w') ->
  root msg = MIMEText (lit "(No content)") "plain" "utf-8".
Proof.
  intros Hn Hp Hh H. rewrite (built_root _ _ _ H).
  rewrite (body_of_nothing _ _ Hp), (body_of_nothing _ _ Hh).
  unfold attachments_of. rewrite (extract_attachments_none m fresh Hn).
  reflexivity.
Qed.

(** *** Headers of the built record *)

Lemma or_str_nonempty (v : option pystr) (d : pystr) :
  d <> [] -> or_str v d <> [].
Proof.
  intros Hd. unfold or_str. destruct v as [[|c s]|]; cbn; auto. discriminate.
Qed.

Lemma add_headers_assembled (m : message) (folder_path : option pystr)
      (msg0 : email_message) :
  quietly (add_headers py m folder_path msg0) (assembled msg0 folder_path).
Proof.
  unfold add_headers.
  eapply quietly_bind with (pre := fun _ => True);
    [ quiet_auto | intros sj _ | intros; exact I ].
  do 3 (eapply quietly_bind with (pre := fun _ => True);
        [ quiet_auto | intros ? _ | intros; exact I ]).
  cbv zeta.
  destruct (recover_sender _ _ _) as [sender_name sender_email].
  set (msg1 := set_header "Subject" (or_str sj (lit "(No Subject)")) msg0).
  eapply quietly_bind with
    (pre := fun r =>
              match r with
              | Ok msg2 =>
                  exists has_from from,
                    headers msg2
                    = headers msg1 ++ optional has_from ("From"%string, from) /\
                    (if has_from : bool then unixfrom msg2 <> None
                     else unixfrom msg2 = unixfrom msg0)
              | Raise _ => True
              end);
    [ | intros msg2 (has_from & from & Hh2 & Hu2) | intros; exact I ].
  { destruct sender_email as [[|c address]|].
    - quiet_auto. exists false, []. cbn. now rewrite app_nil_r.
    - eapply quietly_bind with (pre := fun _ => True);
        [ apply read_delivery_time_quietly | intros ? _ | intros; exact I ].
      quiet_auto. eexists true, _. cbn. split; [reflexivity | discriminate].
    - quiet_auto. exists false, []. cbn. now rewrite app_nil_r. }
  eapply quietly_bind with (pre := fun _ => True);
    [ apply read_recipients_quietly | intros recipients _ | intros; exact I ].
  eapply quietly_bind with (pre := fun _ => True);
    [ apply read_delivery_time_quietly | intros delivery_time _
    | intros; exact I ].
  set (msg3 := match recipients with
               | _ :: _ => set_header "To" (join (lit ", ") recipients) msg2
               | [] => msg2
               end).
  eapply quietly_bind with
    (pre := fun r =>
              match r with
              | Ok msg4 =>
                  exists date,
                    headers msg4 = headers msg3 ++ [("Date"%string, date)] /\
                    unixfrom msg4 = unixfrom msg3
              | Raise _ => True
              end);
    [ | intros msg4 (date & Hh4 & Hu4) | intros; exact I ].
  { destruct delivery_time as [t|].
    - eapply quietly_try_except with
        (pre := fun r =>
                  match r with
                  | Ok msg4 =>
                      exists date,
                        headers msg4 = headers msg3 ++ [("Date"%string, date)] /\
                        unixfrom msg4 = unixfrom msg3
                  | Raise _ => True
                  end).
      + quiet_auto. eexists. split; reflexivity.
      + auto.
      + intros e _ _. quiet_auto. eexists. split; reflexivity.
      + intros; exact I.
    - quiet_auto. eexists. split; reflexivity. }
  apply quietly_ret. unfold assembled.
  exists (or_str sj (lit "(No Subject)")), has_from, from,
    (match recipients with [] => false | _ :: _ => true end),
    (join (lit ", ") recipients), date,
    (match a1 with
     | Some h => truthy_str h && contains (lit "Message-ID:") h
     | None => false
     end),
    (match a1 with Some h => message_id h | None => [] end).
  split; [apply or_str_nonempty; discriminate|].
  assert (Hu3 : unixfrom msg3 = unixfrom msg2)
    by (unfold msg3; now destruct recipients).
  assert (Hh3 : headers msg3
                = headers msg2
                    ++ optional (match recipients with
                                 | [] => false | _ :: _ => true end)
                         ("To"%string, join (lit ", ") recipients)).
  { unfold msg3. destruct recipients; cbn; [now rewrite app_nil_r|reflexivity]. }
  split.
  - destruct a1 as [h|], folder_path as [path|]; cbn [truthy_opt];
      try destruct (truthy_str h && contains (lit "Message-ID:") h);
      try destruct (truthy_str path);
      cbn [set_header headers optional app];
      rewrite Hh4, Hh3, Hh2; unfold msg1; cbn [set_header headers];
      rewrite <- ?app_assoc; cbn [app]; rewrite ?app_nil_r; reflexivity.
  - assert (Hu : forall msg5 : email_message,
               unixfrom msg5 = unixfrom msg4 ->
               if has_from then unixfrom msg5 <> None
               else unixfrom msg5 = unixfrom msg0).
    { intros msg5 ->. rewrite Hu4, Hu3. exact Hu2. }
    apply Hu.
    destruct a1 as [h|], folder_path as [path|];
      try destruct (truthy_str h && contains (lit "Message-ID:") h);
      try destruct (truthy_str path); reflexivity.
Qed.

Lemma built_assembled (m : message) (fp : option pystr) (w w' : world)
      (msg : email_message) :
  convert_pst_message_to_email py m fp w = (Ok msg, w') ->
  exists msg0,
    headers msg0 = constructor_headers (root msg) /\ unixfrom msg0 = None /\
    assembled msg0 fp (Ok msg).
Proof.
  intros H. destruct (convert_ok_inv _ _ _ H) as [w1 H1].
  destruct (@spec_result _ _ _ _ _ _ (add_headers_assembled _ _ _) H1)
    as [d [_ Hr]].
  eexists. split; [|split; [|exact Hr]]; [|reflexivity].
  rewrite (built_root _ _ _ H). reflexivity.
Qed.

(** The names of the headers the constructor of the root has set. *)
Lemma built_constructor_names (m : message) (fp : option pystr) (w w' : world)
      (msg : email_message) :
  convert_pst_message_to_email py m fp w = (Ok msg, w') ->
  List.map fst (constructor_headers (root msg))
  = ["Content-Type"%string; "MIME-Version"%string]
      ++ optional (single_text_part (root msg))
           "Content-Transfer-Encoding"%string.
Proof.
  intros H. rewrite (built_root _ _ _ H). unfold message_structure.
  destruct (attachments_of m); [|reflexivity].
  destruct (truthy_str _ && truthy_str _); [reflexivity|].
  destruct (truthy_str _); reflexivity.
Qed.

Lemma map_optional {A B} (f : A -> B) (present : bool) (x : A) :
  List.map f (optional present x) = optional present (f x).
Proof. now destruct present. Qed.

(** X8: the headers of every built record come in a fixed order: first
    those the MIME constructor set (Content-Type, MIME-Version and, when
    the record is a single text part, Content-Transfer-Encoding), then
    Subject, From, To, Date, Message-ID, X-Folder; Subject and Date are
    always there, X-Folder exactly when the folder path is not empty, and
    the envelope line is set exactly when there is a From header. *)
Theorem headers_in_fixed_order
        (m : message) (fp : option pystr) (w w' : world) (msg : email_message) :
  convert_pst_message_to_email py m fp w = (Ok msg, w') ->
  exists has_from has_to has_id : bool,
    List.map fst (headers msg)
    = ["Content-Type"%string; "MIME-Version"%string]
        ++ optional (single_text_part (root msg))
             "Content-Transfer-Encoding"%string
        ++ ["Subject"%string]
        ++ optional has_from "From"%string
        ++ optional has_to "To"%string
        ++ ["Date"%string]
        ++ optional has_id "Message-ID"%string
        ++ optional (truthy_opt truthy_str fp) "X-Folder"%string /\
    (unixfrom msg = None <-> has_from = false).
Proof.
  intros H.
  destruct (built_assembled _ _ _ H) as (msg0 & Hh0 & Hu0 & Ha).
  destruct Ha as (subject & has_from & from & has_to & to & date & has_id
                  & id & _ & Hh & Hu).
  exists has_from, has_to, has_id. split.
  - rewrite Hh, Hh0, map_app, (built_constructor_names _ _ _ H).
    rewrite <- !app_assoc. do 2 f_equal.
    repeat (rewrite ?map_app, ?map_optional; cbn [app List.map fst]).
    reflexivity.
  - rewrite Hu0 in Hu. destruct has_from; split; intros E; auto;
      [contradiction | discriminate].
Qed.

(** X9: the first header the converter sets on a record, directly after
    those the MIME constructor left, is a Subject that is not empty, and
    when the folder path is not empty the last header of the record is
    X-Folder with that path. *)
Theorem subject_first_and_folder_last
        (m : message) (fp : option pystr) (w w' : world) (msg : email_message) :
  convert_pst_message_to_email py m fp w = (Ok msg, w') ->
  (exists constructed subject rest,
      headers msg = constructed ++ ("Subject"%string, subject) :: rest /\
      List.map fst constructed
      = ["Content-Type"%string; "MIME-Version"%string]
          ++ optional (single_text_part (root msg))
               "Content-Transfer-Encoding"%string /\
      subject <> []) /\
  (forall path, fp = Some path -> path <> [] ->
                exists before,
                  headers msg = before ++ [("X-Folder"%string, path)]).
Proof.
  intros H.
  destruct (built_assembled _ _ _ H) as (msg0 & Hh0 & Hu0 & Ha).
  destruct Ha as (subject & has_from & from & has_to & to & date & has_id
                  & id & Hs & Hh & _).
  rewrite Hh0 in Hh. split.
  - eexists _, _, _. split; [exact Hh|].
    split; [exact (built_constructor_names _ _ _ H) | exact Hs].
  - intros path -> Hp. destruct path as [|c path]; [contradiction|].
    cbn [truthy_opt truthy_str optional] in Hh.
    exists (constructor_headers (root msg)
              ++ ("Subject"%string, subject)
              :: optional has_from ("From"%string, from)
              ++ optional has_to ("To"%string, to)
              ++ ("Date"%string, date)
              :: optional has_id ("Message-ID"%string, id)).
    rewrite Hh. rewrite <- !app_assoc. f_equal. cbn [app]. f_equal.
    rewrite <- !app_assoc. cbn [app]. reflexivity.
Qed.

(** *** Sender recovery and the safe accessor *)

Lemma search_finds_no_from_line (s : pystr) (prev : option N) :
  line_starts_with (lit "From:") prev s = false ->
  Re.search_from Re.from_pattern prev s = None.
Proof.
  revert prev. induction s as [|c s IH]; intros prev H.
  - cbn [Re.search_from]. rewrite from_pattern_needs_from_line; [reflexivity|].
    now rewrite andb_false_r.
  - cbn [line_starts_with] in H. apply orb_false_elim in H.
    destruct H as [H1 H2].
    cbn [Re.search_from]. rewrite (from_pattern_needs_from_line _ _ H1).
    now apply IH.
Qed.

(** X10: when no line of the transport headers begins with [From:], the
    sender is left as the structured fields gave it; in particular a
    missing address stays missing. *)
Theorem no_from_line_keeps_sender
        (sender_name sender_email : option pystr) (transport_headers : pystr) :
  line_starts_with (lit "From:") None transport_headers = false ->
  recover_sender sender_name sender_email (Some transport_headers)
  = (sender_name, sender_email).
Proof.
  intros H. unfold recover_sender, Re.search.
  rewrite (search_finds_no_from_line _ _ H).
  now destruct (_ && _).
Qed.

(** X11: the accessor only logs: it leaves the counters and the mbox file
    alone and adds at most one line, a debug line, to the log; and with a
    default that is not None its value is never None. *)
Theorem safe_get_attr_only_logs
        {O T} (obj : O) (name : O -> attr T) (default : option T) (w : world) :
  let r := fst (safe_get_attr obj name default w) in
  let w' := snd (safe_get_attr obj name default w) in
  processed_emails w' = processed_emails w /\
  failed_emails w' = failed_emails w /\
  attachments_found w' = attachments_found w /\
  attachments_extracted w' = attachments_extracted w /\
  attachment_bytes w' = attachment_bytes w /\
  mbox w' = mbox w /\
  (trace w' = trace w \/
   exists e, trace w' = trace w ++ [Log (Debug_failed_to_read_attribute e)]) /\
  (default <> None -> r <> Ok None).
Proof.
  cbv zeta.
  unfold safe_get_attr, try_except, bind, attempt, lift, getattr, ret, raise,
    logger, emit.
  destruct (name obj) as [[v|]|e]; [| |destruct e]; cbn;
    repeat split; auto; try (right; eexists; reflexivity);
    try discriminate;
    intros Hd E; inversion E; subst; try contradiction;
    destruct default; try contradiction; discriminate.
Qed.

(** *** Tiered recovery of attachment data *)

(** X12: when the declared size is positive and [read_buffer(size)]
    hands back bytes, those bytes are the data of the entry, with the
    declared size; [get_data] and the [data] property are not consulted.
    The only way out without an entry is an unguarded exception from the
    read of the name. *)
Theorem read_buffer_result_is_kept
        (m : message) (i : Z) (att : Attachment.t) (n : Z)
        (read_buffer : Z -> outcome (option bytes)) (b : bytes) (w : world) :
  Message.get_attachment m i = Ok (Some att) ->
  Attachment.size att = Ok (Some n) -> 0 < n ->
  Attachment.read_buffer att = Some read_buffer ->
  read_buffer n = Ok (Some b) ->
  match fst (extract_attachment m i w) with
  | Ok (Some entry) => data entry = Some b /\ size entry = n
  | Ok None => False
  | Raise e => Attachment.name att = Raise e
  end.
Proof.
  intros Hg Hs Hn Hr Hb.
  assert (E0 : (n =? 0) = false) by (apply Z.eqb_neq; lia).
  assert (E1 : (n >? 0) = true) by (apply Z.gtb_lt; lia).
  unfold extract_attachment, safe_get_attr, try_except, bind, attempt, lift,
    getattr, ret, raise, logger, emit, or_int.
  rewrite Hg.
  destruct (Attachment.name att) as [[v|]|e]; [| |destruct e];
    cbn; try reflexivity;
    rewrite Hs; cbn; rewrite E0, E1, Hr, Hb; cbn;
    destruct (Z.of_nat (List.length b) =? 0); cbn; auto.
Qed.

(** X13: when the sized read gives nothing (it returns None or raises
    an instance of [Exception]) and [get_data()] hands back bytes, those
    bytes are the data of the entry: a failed method does not stop the
    next one. *)
Theorem get_data_is_the_fallback
        (m : message) (i : Z) (att : Attachment.t) (n : Z)
        (read_buffer : Z -> outcome (option bytes))
        (get_data : outcome (option bytes)) (b : bytes) (w : world) :
  Message.get_attachment m i = Ok (Some att) ->
  Attachment.size att = Ok (Some n) -> 0 < n ->
  Attachment.read_buffer att = Some read_buffer ->
  match read_buffer n with
  | Ok None => True
  | Ok (Some _) => False
  | Raise e => is_Exception e = true
  end ->
  Attachment.get_data att = Some get_data ->
  get_data = Ok (Some b) ->
  match fst (extract_attachment m i w) with
  | Ok (Some entry) => data entry = Some b /\ size entry = n
  | Ok None => False
  | Raise e => Attachment.name att = Raise e
  end.
Proof.
  intros Hg Hs Hn Hr Hb Hd Hv.
  assert (E0 : (n =? 0) = false) by (apply Z.eqb_neq; lia).
  assert (E1 : (n >? 0) = true) by (apply Z.gtb_lt; lia).
  unfold extract_attachment, safe_get_attr, try_except, bind, attempt, lift,
    getattr, ret, raise, logger, emit, or_int.
  rewrite Hg.
  destruct (Attachment.name att) as [[v|]|e]; [| |destruct e];
    cbn; try reflexivity;
    rewrite Hs; cbn; rewrite E0, E1, Hr, Hd, Hv;
    (destruct (read_buffer n) as [[b0|]|e0];
     [contradiction| |rewrite Hb]); cbn;
    destruct (Z.of_nat (List.length b) =? 0); cbn; auto.
Qed.

(** *** Recipients *)

Lemma safe_get_attr_guarded {O T} (obj : O) (name : O -> attr T)
      (default : option T) :
  guarded (name obj) = true ->
  exists v d, forall w, safe_get_attr obj name default w = (Ok v, after w d).
Proof.
  intros H.
  destruct (safe_get_attr_quiet obj name default) as (r & d & Hw & _).
  destruct r as [v|e]; [exists v, d; exact Hw|].
  exfalso. specialize (Hw fresh). revert Hw H.
  unfold safe_get_attr, try_except, bind, attempt, lift, getattr, ret, raise,
    logger, emit, guarded.
  destruct (name obj) as [[v|]|e0]; [| |destruct e0]; cbn;
    try discriminate; destruct default; discriminate.
Qed.

Lemma safe_get_attr_guarded_value {O} (obj : O) (name : O -> attr pystr) :
  guarded (name obj) = true ->
  exists d, forall w,
      safe_get_attr obj name (Some []) w
      = (Ok (match name obj with
             | Ok (Some s) => Some s
             | _ => Some []
             end), after w d).
Proof.
  intros H.
  destruct (safe_get_attr_guarded obj name (Some []) H) as (v & d & E).
  exists d. intros w. rewrite E. f_equal. f_equal.
  specialize (E fresh). revert E H.
  unfold safe_get_attr, try_except, bind, attempt, lift, getattr, ret, raise,
    logger, emit, guarded.
  destruct (name obj) as [[s|]|e]; [| |destruct e]; cbn;
    intros E; inversion E; try reflexivity; discriminate.
Qed.

Lemma format_email_address_no_name (address : pystr) :
  format_email_address py address (Some []) = format_email_address py address None.
Proof. unfold format_email_address. now destruct (negb _). Qed.

(** X18: when the fields of every recipient can be read (each read
    returns, finds the attribute missing or raises a guarded error, and
    the names can be encoded), the loop over the recipients visits all of
    them and appends, in order, the formatted address of each recipient
    that has one; a recipient whose address is missing, None, empty or
    unreadable is left out, and the loop does not end early. *)
Theorem recipients_listed_in_order
        (rs : list Recipient.t) (recipients : list pystr) (w : world) :
  forallb readable rs = true ->
  fst (for_each_recipient py rs recipients w)
  = Ok (recipients
          ++ List.map (fun r => format_email_address py (address_of r) (name_of r))
               (filter has_address rs),
        None).
Proof.
  revert recipients w.
  induction rs as [|r rs IH]; intros recipients w H.
  - cbn. now rewrite app_nil_r.
  - cbn [forallb] in H. apply andb_true_iff in H. destruct H as [Hr H].
    unfold readable in Hr.
    apply andb_true_iff in Hr. destruct Hr as [Hr _].
    apply andb_true_iff in Hr. destruct Hr as [He Hn].
    destruct (safe_get_attr_guarded_value r Recipient.email_address He)
      as (d1 & E1).
    destruct (safe_get_attr_guarded_value r Recipient.name Hn) as (d2 & E2).
    cbn [for_each_recipient filter].
    unfold bind at 1. unfold attempt, bind. rewrite E1, E2.
    unfold ret at 1. cbv beta iota.
    rewrite (IH _ _ H). unfold has_address, address_of, name_of.
    destruct (Recipient.email_address r) as [[[|c address]|]|e] eqn:Ea;
      cbn [truthy_str app List.map]; try reflexivity.
    rewrite <- app_assoc, Ea. cbn [app].
    destruct (Recipient.name r) as [[name|]|e];
      rewrite ?format_email_address_no_name; reflexivity.
Qed.

(** *** The folder of a message *)

Lemma folder_path_of_no_folder (m : message) (w : world) :
  no_folder (Message.folder m) = true ->
  folder_path_of m w = (Ok (Some (lit "Unknown")), w).
Proof.
  unfold folder_path_of, try_except, bind, attempt, lift, hasattr, ret, raise,
    no_folder.
  destruct (Message.folder m) as [[f|]|e]; [| |destruct e]; cbn;
    (reflexivity || discriminate).
Qed.

(** X19: a message that gives no folder is filed under [Unknown]: that
    is the [X-Folder] header its record ends with. *)
Theorem unfiled_message_goes_to_unknown (m : message) (msg : email_message) :
  no_folder (Message.folder m) = true ->
  built py m = Ok msg ->
  exists before,
    headers msg = before ++ [("X-Folder"%string, lit "Unknown")].
Proof.
  intros Hf Hb. unfold built, build, bind in Hb.
  rewrite (folder_path_of_no_folder m fresh Hf) in Hb.
  destruct (convert_pst_message_to_email py m (Some (lit "Unknown")) fresh)
    as [r w'] eqn:H.
  cbn [fst] in Hb. subst r.
  destruct (built_assembled _ _ _ H) as (msg0 & Hh0 & Hu0 & Ha).
  destruct Ha as (subject & has_from & from & has_to & to & date & has_id
                  & id & Hs & Hh & _).
  rewrite Hh0 in Hh. cbn [truthy_opt] in Hh.
  exists (constructor_headers (root msg)
            ++ ("Subject"%string, subject)
            :: optional has_from ("From"%string, from)
            ++ optional has_to ("To"%string, to)
            ++ ("Date"%string, date)
            :: optional has_id ("Message-ID"%string, id)).
  rewrite Hh. rewrite <- !app_assoc. f_equal. cbn [app]. f_equal.
  rewrite <- !app_assoc. cbn [app]. reflexivity.
Qed.

(** *** The Message-ID header *)

Lemma In_lstrip (p : N -> bool) (x : N) (s : pystr) :
  In x (lstrip p s) -> In x s.
Proof.
  induction s as [|c s IH]; cbn; [auto|].
  destruct (p c); [right; auto | auto].
Qed.

Lemma In_strip (x : N) (s : pystr) : In x (strip s) -> In x s.
Proof.
  unfold strip, rstrip. intros H.
  apply In_lstrip with (p := py_isspace).
  apply in_rev. apply In_lstrip with (p := py_isspace). apply in_rev.
  exact H.
Qed.

Lemma split_lines_no_newline (cur s : pystr) :
  ~ In 10%N cur ->
  Forall (fun piece => ~ In 10%N piece) (split_aux newline 0 cur s).
Proof.
  revert cur. induction s as [|c s IH]; intros cur Hc.
  - cbn. constructor; [|constructor]. intros H. now apply in_rev in H.
  - cbn [split_aux newline starts_with List.length Nat.sub].
    rewrite andb_true_r.
    destruct (10 =? c)%N eqn:E.
    + constructor; [intros H; now apply in_rev in H|].
      apply IH. intros [].
    + apply IH. intros [H|H]; [|auto].
      subst c. now rewrite N.eqb_refl in E.
Qed.

(** X20: the value taken for the [Message-ID] header holds no line
    feed, whatever the transport headers are. *)
Theorem message_id_is_one_line (transport_headers : pystr) :
  ~ In 10%N (message_id transport_headers).
Proof.
  unfold message_id. intros H. apply In_strip in H.
  pose proof (split_lines_no_newline []
                (nth 1 (split (lit "Message-ID:") transport_headers) [])
                (fun F => F)) as Hall.
  fold (split newline
          (nth 1 (split (lit "Message-ID:") transport_headers) [])) in Hall.
  destruct (split newline _) as [|piece pieces]; [exact H|].
  inversion Hall; subst. cbn [nth] in H. auto.
Qed.

Lemma starts_with_app (p s t : pystr) :
  starts_with p s = true -> starts_with p (s ++ t) = true.
Proof.
  revert s. induction p as [|a p IH]; intros [|c s]; cbn; auto;
    [discriminate|].
  intros H. apply andb_true_iff in H. destruct H as [-> H]. cbn. auto.
Qed.

Lemma starts_with_self (p t : pystr) : starts_with p (p ++ t) = true.
Proof. induction p as [|a p IH]; cbn; [|rewrite N.eqb_refl]; auto. Qed.

Lemma starts_with_inv (p s : pystr) :
  starts_with p s = true -> exists r, s = p ++ r.
Proof.
  revert s. induction p as [|a p IH]; intros s H; [now exists s|].
  destruct s as [|c s]; [discriminate H|]. cbn in H.
  apply andb_true_iff in H. destruct H as [E H].
  apply N.eqb_eq in E. subst c.
  destruct (IH s H) as [r ->]. now exists r.
Qed.

Lemma contains_suffix (p s1 s2 : pystr) :
  starts_with p s2 = true -> contains p (s1 ++ s2) = true.
Proof.
  intros H. induction s1 as [|c s1 IH]; cbn [app].
  - destruct s2; cbn [contains]; rewrite H; reflexivity.
  - cbn [contains]. rewrite IH. apply orb_true_r.
Qed.

Lemma starts_with_firstn (p s t : pystr) (k : nat) :
  starts_with p (s ++ t) = true ->
  (List.length p <= List.length s + k)%nat ->
  starts_with p (s ++ firstn k t) = true.
Proof.
  revert s t k. induction p as [|a p IH]; intros s t k H L; [reflexivity|].
  destruct s as [|c s].
  - cbn [app] in *. destruct t as [|c t]; [discriminate H|].
    destruct k as [|k]; [cbn in L; lia|].
    cbn in H |- *. apply andb_true_iff in H. destruct H as [-> H].
    cbn. apply (@IH [] t k H). cbn in L |- *. lia.
  - cbn in H |- *. apply andb_true_iff in H. destruct H as [-> H].
    cbn. apply IH; [exact H | cbn in L; lia].
Qed.

Lemma starts_with_before_newline (p s r : pystr) :
  ~ In 10%N p ->
  starts_with p (s ++ 10%N :: r) = true -> starts_with p s = true.
Proof.
  revert s. induction p as [|a p IH]; intros s Hp H; [reflexivity|].
  destruct s as [|c s]; cbn in H |- *;
    apply andb_true_iff in H; destruct H as [E H].
  - apply N.eqb_eq in E. elim Hp. now left.
  - rewrite E. cbn. apply IH; [|exact H]. intros F. apply Hp. now right.
Qed.

Lemma split_aux_clear (sep x y cur : pystr) :
  (forall x1 c x2, x = x1 ++ c :: x2 ->
                   starts_with sep (c :: x2 ++ y) = false) ->
  split_aux sep 0 cur (x ++ y) = split_aux sep 0 (rev x ++ cur) y.
Proof.
  revert cur. induction x as [|c x IH]; intros cur H; [reflexivity|].
  cbn [app split_aux]. rewrite (H [] c x eq_refl).
  rewrite IH.
  - cbn [rev]. now rewrite <- app_assoc.
  - intros x1 c' x2 ->. apply (H (c :: x1) c' x2). reflexivity.
Qed.

Lemma split_aux_skip (sep ps y cur : pystr) :
  split_aux sep (List.length ps) cur (ps ++ y) = split_aux sep 0 cur y.
Proof.
  induction ps as [|a ps IH]; [reflexivity|]. cbn [List.length app].
  destruct y as [|c y]; cbn [split_aux]; exact IH.
Qed.

Lemma split_aux_at_separator (a : N) (ps y cur : pystr) :
  split_aux (a :: ps) 0 cur ((a :: ps) ++ y)
  = rev cur :: split_aux (a :: ps) 0 [] y.
Proof.
  cbn [app split_aux].
  pose proof (starts_with_self (a :: ps) y) as H. cbn [app] in H. rewrite H.
  f_equal.
  replace (List.length (a :: ps) - 1)%nat with (List.length ps)
    by (cbn [List.length]; lia).
  apply split_aux_skip.
Qed.

Lemma split_aux_first_piece (sep s cur : pystr) (k : nat) :
  exists piece, nth 0 (split_aux sep k cur s) [] = rev cur ++ piece.
Proof.
  revert k cur. induction s as [|c s IH]; intros k cur.
  - exists []. cbn. now rewrite app_nil_r.
  - cbn [split_aux]. destruct k as [|k]; [|apply IH].
    destruct (starts_with sep (c :: s)).
    + exists []. cbn. now rewrite app_nil_r.
    + destruct (IH 0%nat (c :: cur)) as [piece E].
      exists (c :: piece). rewrite E. cbn [rev]. now rewrite <- app_assoc.
Qed.

Lemma no_label_begins (sep x y : pystr) (k : nat) :
  contains sep (x ++ firstn k y) = false ->
  (List.length sep <= S k)%nat ->
  forall x1 c x2, x = x1 ++ c :: x2 ->
                  starts_with sep (c :: x2 ++ y) = false.
Proof.
  intros H L x1 c x2 ->.
  destruct (starts_with sep (c :: x2 ++ y)) eqn:E; [|reflexivity].
  apply (@starts_with_firstn sep (c :: x2) y k) in E; [|cbn; lia].
  rewrite <- app_assoc in H.
  now rewrite (@contains_suffix sep x1 _ E) in H.
Qed.

Lemma no_newline_begins (x y : pystr) :
  ~ In 10%N x ->
  forall x1 c x2, x = x1 ++ c :: x2 ->
                  starts_with newline (c :: x2 ++ y) = false.
Proof.
  intros H x1 c x2 ->. unfold newline. cbn [app starts_with].
  rewrite andb_true_r.
  apply N.eqb_neq. intros <-. apply H, in_elt.
Qed.

Lemma first_line (value piece : pystr) :
  ~ In 10%N value ->
  (piece = [] \/ exists r, piece = 10%N :: r) ->
  nth 0 (split newline (value ++ piece)) [] = value.
Proof.
  intros H P. unfold split.
  rewrite (@split_aux_clear newline value piece [] (@no_newline_begins value piece H)).
  rewrite app_nil_r.
  destruct P as [->|[r ->]].
  - cbn. apply rev_involutive.
  - change (10%N :: r) with (newline ++ r). unfold newline at 1 2.
    rewrite split_aux_at_separator. cbn. apply rev_involutive.
Qed.

(** X21: the value taken for the [Message-ID] header is the text that
    follows the first [Message-ID:] of the transport headers, wherever in
    a line that is, up to the next [Message-ID:], the next line feed or
    the end, whichever comes first, with the white space at both ends
    removed. *)
Theorem message_id_follows_first_label (before value rest : pystr) :
  contains (lit "Message-ID:") (before ++ lit "Message-ID") = false ->
  contains (lit "Message-ID:") (value ++ lit "Message-ID") = false ->
  ~ In 10%N value ->
  rest = [] \/ starts_with newline rest = true
  \/ starts_with (lit "Message-ID:") rest = true ->
  message_id (before ++ lit "Message-ID:" ++ value ++ rest) = strip value.
Proof.
  intros Hb Hv Hn Hr. unfold message_id. f_equal.
  set (label := lit "Message-ID:") in *.
  assert (Cb : forall y x1 c x2, before = x1 ++ c :: x2 ->
                 starts_with label (c :: x2 ++ label ++ y) = false).
  { intros y. apply (@no_label_begins label before (label ++ y) 10);
      [exact Hb | cbn; lia]. }
  assert (Cv : forall y x1 c x2, value = x1 ++ c :: x2 ->
                 starts_with label (c :: x2 ++ label ++ y) = false).
  { intros y. apply (@no_label_begins label value (label ++ y) 10);
      [exact Hv | cbn; lia]. }
  assert (Cv0 : forall x1 c x2, value = x1 ++ c :: x2 ->
                  starts_with label (c :: x2) = false).
  { intros x1 c x2 E.
    destruct (starts_with label (c :: x2)) eqn:S; [|reflexivity].
    apply (@starts_with_app _ _ (label ++ [])) in S.
    cbn [app] in S. now rewrite (Cv [] x1 c x2 E) in S. }
  unfold split at 2.
  rewrite (@split_aux_clear label before _ [] (Cb (value ++ rest))).
  rewrite app_nil_r. unfold label at 1 2.
  change (lit "Message-ID:") with (77%N :: lit "essage-ID:") at 1 2.
  rewrite split_aux_at_separator. cbn [nth].
  change (77%N :: lit "essage-ID:") with label.
  destruct Hr as [->|[Hr|Hr]].
  - rewrite app_nil_r.
    rewrite <- (app_nil_r value) at 1.
    rewrite (@split_aux_clear label value [] []).
    + cbn [split_aux nth]. rewrite app_nil_r, rev_involutive.
      rewrite <- (app_nil_r value) at 1. apply first_line; auto.
    + intros x1 c x2 E. rewrite app_nil_r. exact (Cv0 x1 c x2 E).
  - apply starts_with_inv in Hr. destruct Hr as [r ->].
    rewrite (@split_aux_clear label value (newline ++ r) []).
    + rewrite app_nil_r. cbn [newline app split_aux].
      change (starts_with label (10%N :: r)) with false. cbv iota.
      destruct (split_aux_first_piece label r (10%N :: rev value) 0)
        as [piece ->].
      cbn [rev]. rewrite rev_involutive, <- app_assoc. cbn [app].
      apply first_line; [exact Hn | right; now exists piece].
    + intros x1 c x2 E.
      destruct (starts_with label (c :: x2 ++ newline ++ r)) eqn:S;
        [|reflexivity].
      change (c :: x2 ++ newline ++ r) with ((c :: x2) ++ 10%N :: r) in S.
      apply starts_with_before_newline in S.
      * now rewrite (Cv0 x1 c x2 E) in S.
      * vm_compute. intuition discriminate.
  - apply starts_with_inv in Hr. destruct Hr as [r ->].
    rewrite (@split_aux_clear label value (label ++ r) [] (Cv r)).
    rewrite app_nil_r. unfold label at 1 2.
    change (lit "Message-ID:") with (77%N :: lit "essage-ID:") at 1 2.
    rewrite split_aux_at_separator. cbn [nth]. rewrite rev_involutive.
    rewrite <- (app_nil_r value) at 1. apply first_line; auto.
Qed.

(** *** The entry point *)

(** X14: the process exits with status 0 exactly when [convert] returned
    True, and with 1 otherwise; the [except Exception] clause of [main]
    is never taken, since [convert] turns every such exception into the
    return value False. *)
Theorem main_exit_status (env : @environment datetime) (w : world) :
  match fst (main py env w) with
  | Ok (code, out) =>
      (code = 0 <-> fst (convert py env w) = Ok true) /\
      (code = 0 \/ code = 1) /\
      (forall e, ~ In (Unexpected_error e) out)
  | Raise e => is_Exception e = false
  end.
Proof.
  assert (H : no_exception (fst (convert py env w))).
  { apply try_except_no_exception; intros e w1; exact I. }
  unfold main. destruct (convert py env w) as [[b|e] w']; cbn in *.
  - destruct b; (split; [split; (reflexivity || discriminate)|]);
      (split; [auto|intros e []]).
  - destruct e; try discriminate H; cbn.
    split; [split; discriminate|].
    split; [auto|]. intros e [E|[]]. discriminate E.
Qed.

End Properties.

(* ===================================================================== *)
(** ** Validation of the paths *)
(* ===================================================================== *)

Lemma str_eqb_eq (a b : pystr) : Validation.str_eqb a b = true <-> a = b.
Proof.
  revert b. induction a as [|x a IH]; intros [|y b]; cbn;
    try (split; (reflexivity || discriminate)).
  rewrite andb_true_iff, N.eqb_eq, IH.
  split; [intros [-> ->]; reflexivity | intros E; inversion E; auto].
Qed.

(** X15: with the PST file in place, the directory made and the output
    file already there, validation passes exactly when the answer at the
    prompt is [y] or [yes] in any letter case; any other answer, the
    empty one included, raises the cancellation error. *)
Theorem overwrite_needs_yes (fs : Validation.files) (response : pystr) :
  Validation.pst_exists fs = true ->
  Validation.pst_is_file fs = true ->
  Validation.mkdir_error fs = None ->
  Validation.output_exists fs = true ->
  Validation.input fs = Ok response ->
  (fst (Validation.validate_files fs) = None <->
   Validation.str_lower response = lit "y" \/
   Validation.str_lower response = lit "yes") /\
  (fst (Validation.validate_files fs) <> None ->
   fst (Validation.validate_files fs)
   = Some Validation.ValueError_operation_cancelled_by_user).
Proof.
  intros He Hf Hm Ho Hi. unfold Validation.validate_files.
  rewrite He, Hf, Hm, Ho, Hi. cbn [negb].
  unfold Validation.in_list. cbn [existsb]. rewrite orb_false_r.
  destruct (Validation.str_eqb (Validation.str_lower response) (lit "y"))
    eqn:Ey;
    [|destruct (Validation.str_eqb (Validation.str_lower response)
                  (lit "yes")) eqn:Eyes]; cbn [negb orb fst].
  - apply str_eqb_eq in Ey. split; [split; auto|intros H; now elim H].
  - apply str_eqb_eq in Eyes. split; [split; auto|intros H; now elim H].
  - split; [|reflexivity]. split; [discriminate|].
    intros [E|E]; apply str_eqb_eq in E;
      [rewrite E in Ey; discriminate Ey | rewrite E in Eyes; discriminate Eyes].
Qed.

(** X16: the overwrite prompt is shown only after the PST path has passed
    both checks and the output directory has been made, and only when the
    output file exists; it is the last thing the method does. *)
Theorem prompt_only_after_directory_made (fs : Validation.files) :
  In Validation.Input_overwrite_prompt (snd (Validation.validate_files fs)) ->
  Validation.pst_exists fs = true /\
  Validation.pst_is_file fs = true /\
  Validation.mkdir_error fs = None /\
  Validation.output_exists fs = true /\
  exists before,
    snd (Validation.validate_files fs)
    = before ++ [Validation.Mkdir_parents; Validation.Input_overwrite_prompt].
Proof.
  unfold Validation.validate_files.
  destruct (Validation.pst_exists fs); cbn [negb]; [|intros []].
  destruct (Validation.pst_is_file fs); cbn [negb]; [|intros []].
  destruct (Validation.mkdir_error fs) as [e|].
  - cbn [snd]. intros H. apply in_app_or in H.
    destruct H as [H|[H|[]]]; [|discriminate H].
    destruct (negb _); [destruct H as [H|[]]; discriminate H | destruct H].
  - destruct (Validation.output_exists fs).
    + do 4 (split; [reflexivity|]).
      destruct (Validation.input fs) as [response|e];
        [destruct (negb (Validation.in_list (Validation.str_lower response) _))|];
        cbn [snd]; eexists; reflexivity.
    + cbn [snd]. intros H. apply in_app_or in H.
      destruct H as [H|[H|[]]]; [|discriminate H].
      destruct (negb _); [destruct H as [H|[]]; discriminate H | destruct H].
Qed.

(** X17: the extension of the PST path decides only whether the warning
    is logged: with any other suffix the method returns or raises the
    same, and does the same besides the warning. *)
Theorem extension_only_warns (fs : Validation.files) (suffix : pystr) :
  let other := Validation.validate_files (Validation.with_suffix fs suffix) in
  fst other = fst (Validation.validate_files fs) /\
  filter (fun a => negb (Validation.is_warning a)) (snd other)
  = filter (fun a => negb (Validation.is_warning a))
           (snd (Validation.validate_files fs)).
Proof.
  cbv zeta. unfold Validation.validate_files, Validation.with_suffix.
  cbn [Validation.pst_exists Validation.pst_is_file Validation.pst_suffix
       Validation.mkdir_error Validation.output_exists Validation.input].
  destruct (Validation.pst_exists fs); cbn [negb]; [|split; reflexivity].
  destruct (Validation.pst_is_file fs); cbn [negb]; [|split; reflexivity].
  destruct (negb (Validation.in_list (Validation.str_lower suffix) _)),
    (negb (Validation.in_list
             (Validation.str_lower (Validation.pst_suffix fs)) _));
    destruct (Validation.mkdir_error fs);
    destruct (Validation.output_exists fs);
    try destruct (Validation.input fs) as [response|e];
    try destruct (negb (Validation.in_list
                          (Validation.str_lower response) _));
    split; reflexivity.
Qed.


(* ===================================================================== *)
(** ** The results on sample inputs *)
(* ===================================================================== *)

Example re_from_jane :
  option_map (fun m => (Re.group m 1, Re.group m 2))
             (Re.search Re.from_pattern
                (lit "Received: by x
From: Jane Doe <jane@example.com>
To: b"))
  = Some (lit "Jane Doe", lit "jane@example.com").
Proof. reflexivity. Qed.

Example re_date_line :
  option_map (fun m => Re.group m 1)
             (Re.search Re.date_pattern (lit "date:   Mon, 1 Jan 2024
X: y"))
  = Some (lit "Mon, 1 Jan 2024").
Proof. reflexivity. Qed.

Example record_of_both_bodies :
  Sample.record
  = {| root := MIMEMultipart "alternative"
                 [MIMEText (lit "hello") "plain" "utf-8";
                  MIMEText (lit "<p>hello</p>") "html" "utf-8"];
       headers := [("Content-Type"%string, lit "multipart/alternative");
                   ("MIME-Version"%string, lit "1.0");
                   ("Subject"%string, lit "Greetings");
                   ("From"%string, lit "Jane Doe <jane@example.com>");
                   ("Date"%string, lit "%a, %d %b %Y %H:%M:%S %z");
                   ("X-Folder"%string, lit "Inbox")];
       unixfrom := Some (lit "From jane@example.com %a %b %d %H:%M:%S %Y") |}.
Proof. reflexivity. Qed.

(** *** Record builder *)

(** C1 on [Sample.both_bodies]. *)
Lemma alternative_when_both_bodies_witness :
  exists msg w',
    convert_pst_message_to_email Sample.py Sample.both_bodies None fresh
    = (Ok msg, w') /\
    root msg = MIMEMultipart "alternative"
                 [MIMEText (lit "hello") "plain" "utf-8";
                  MIMEText (lit "<p>hello</p>") "html" "utf-8"].
Proof.
  eexists _, _. split; [vm_compute; reflexivity|].
  eapply (@alternative_when_both_bodies_and_no_attachments
            unit Sample.py Sample.both_bodies None
            (lit "hello") (lit "<p>hello</p>") fresh);
    [reflexivity | reflexivity | discriminate | reflexivity | discriminate
    | vm_compute; reflexivity].
Defined.

(** *** Attachment extractor *)

(** C2, counterexample: an attachment of declared size 0 with no bytes
    recovered still counts as extracted, so the counter does not follow
    "recovered length > 0". *)
Lemma extracted_counts_empty_attachment :
  ~ (forall (m : Message.t unit) (w : world),
        match extract_attachments m w with
        | (Ok attachments, w') =>
            attachments_extracted w'
            = attachments_extracted w
              + Z.of_nat (List.length
                            (filter (fun a => 0 <? actual_size (data a))
                                    attachments))
        | (Raise _, _) => True
        end).
Proof.
  intros H. specialize (H Sample.one_empty_attachment fresh).
  vm_compute in H. discriminate H.
Qed.

(** *** Conversion driver *)

(** C3 on [Sample.archive]: three messages, the second one fails. *)
Lemma one_failure_is_isolated_witness :
  exists w',
    process_messages Sample.py Sample.archive Sample.mbox_ok fresh = (Ok tt, w') /\
    processed_emails w' = 2 /\
    failed_emails w' = 1 /\
    mbox w' = [Sample.record; Sample.record].
Proof.
  apply (@one_failure_is_isolated unit Sample.py Sample.mbox_ok
           [Sample.both_bodies] [Sample.both_bodies] Sample.broken
           [Sample.record] [Sample.record] OSError).
  - repeat constructor; vm_compute; reflexivity.
  - vm_compute; reflexivity.
  - reflexivity.
  - repeat constructor; vm_compute; reflexivity.
Defined.

(** C7 on a run over [Sample.archive]. *)
Lemma lock_released_exactly_once_witness :
  exists t1 t2,
    trace (snd (convert Sample.py Sample.env fresh))
    = trace fresh ++ t1 ++ Mbox_unlock :: t2 /\
    existsb is_lock t1 = true /\
    forallb (fun ev => negb (is_unlock ev)) (t1 ++ t2) = true /\
    forallb (fun ev => negb (is_report ev)) t1 = true.
Proof.
  apply (@lock_released_exactly_once unit Sample.py Sample.env
           Sample.archive Sample.mbox_ok fresh); reflexivity.
Defined.

(** C9, the failing input: two messages that both fail.  The second
    failure, of the message at index 1, is logged with index 0: the
    counter the log line prints goes up on success only. *)
Theorem failure_logged_with_success_count :
  filter Sample.is_failure_line
    (trace (snd (process_messages Sample.py
                   {| messages := [Sample.broken; Sample.broken];
                      messages_error := None |}
                   Sample.mbox_ok fresh)))
  = [Log (Error_failed_to_process_message 0 OSError);
     Log (Error_failed_to_process_message 0 OSError)].
Proof. vm_compute. reflexivity. Qed.

(** C8, counterexample: the attachment counters have moved by the time
    the conversion of a message raises, before the driver has settled the
    outcome for that message. *)
Lemma attachment_counters_move_before_outcome :
  ~ (forall (m : Message.t unit) (folder_path : option pystr) (w : world),
        let w' := snd (convert_pst_message_to_email Sample.py m folder_path w) in
        attachments_found w' = attachments_found w /\
        attachments_extracted w' = attachments_extracted w /\
        attachment_bytes w' = attachment_bytes w).
Proof.
  intros H. specialize (H Sample.broken None fresh).
  vm_compute in H. destruct H as [H _]. discriminate H.
Qed.

(** *** Safe field accessor *)

(** C4, counterexample: an exception outside the guarded classes, here
    the I/O error of the PST reader, gets out of the accessor. *)
Lemma safe_get_attr_can_raise :
  ~ (forall (O T : Type) (obj : O) (name : O -> attr T) (default : option T)
            (w : world),
        exists v, fst (safe_get_attr obj name default w) = Ok v).
Proof.
  intros H.
  destruct (H unit pystr tt (fun _ => Raise OSError) (Some []) fresh) as [v Hv].
  vm_compute in Hv. discriminate Hv.
Qed.

(** C4 on a read that raises [UnicodeDecodeError]. *)
Lemma safe_get_attr_guards_read_errors_witness :
  (catches pst_read_errors UnicodeDecodeError = true ->
   safe_get_attr tt (fun _ : unit => @Raise (option pystr) UnicodeDecodeError)
                 (Some []) fresh
   = (Ok (Some []),
      snd (logger (Debug_failed_to_read_attribute UnicodeDecodeError) fresh))) /\
  (UnicodeDecodeError = AttributeError ->
   safe_get_attr tt (fun _ : unit => @Raise (option pystr) UnicodeDecodeError)
                 (Some []) fresh
   = (Ok (Some []), fresh)) /\
  (catches pst_read_errors UnicodeDecodeError = false ->
   UnicodeDecodeError <> AttributeError ->
   safe_get_attr tt (fun _ : unit => @Raise (option pystr) UnicodeDecodeError)
                 (Some []) fresh
   = (Raise UnicodeDecodeError, fresh)).
Proof.
  apply (@safe_get_attr_guards_read_errors unit pystr tt
           (fun _ => Raise UnicodeDecodeError) (Some []) UnicodeDecodeError fresh).
  reflexivity.
Defined.

(** C10 on a field that holds [None] in one object and is missing in
    another. *)
Lemma safe_get_attr_none_is_default_witness :
  let name (present : bool) : attr pystr :=
    if present then Ok None else Raise AttributeError in
  safe_get_attr true name (Some (lit "Unknown")) fresh
  = (Ok (Some (lit "Unknown")), fresh) /\
  safe_get_attr false name (Some (lit "Unknown")) fresh
  = safe_get_attr true name (Some (lit "Unknown")) fresh.
Proof.
  intros name.
  apply (@safe_get_attr_none_is_default bool pystr true false name
           (Some (lit "Unknown")) fresh); reflexivity.
Defined.

(** *** Address formatter *)


Example format_ascii_name :
  format_email_address Sample.py (lit "jane@example.com") (Some (lit "Jane Doe"))
  = lit "Jane Doe <jane@example.com>".
Proof. reflexivity. Qed.

Example format_non_ascii_name :
  format_email_address Sample.py (lit "j@example.com")
                       (Some [74; 252; 114; 103; 101; 110]%N)
  = lit "=?utf-8?b?SsO8cmdlbg==?= <j@example.com>".
Proof. reflexivity. Qed.

(** *** Header recovery *)

(** C6, counterexample: an earlier [From:] line is the one matched. *)
Lemma earlier_from_line_wins :
  ~ (forall before rest : pystr,
        Re.at_beginning_line (last_before None before) = true ->
        recover_sender (Some []) (Some [])
          (Some (before ++ lit "From: Jane Doe <jane@example.com>" ++ rest))
        = (Some (lit "Jane Doe"), Some (lit "jane@example.com"))).
Proof.
  intros H.
  specialize (H (lit "From: Bob <bob@example.com>
") [] eq_refl).
  vm_compute in H. discriminate H.
Qed.

(** C6 on headers with a [Received:] line before the [From:] line. *)
Lemma sender_recovered_witness :
  recover_sender (Some []) (Some [])
    (Some (lit "Received: by mx.example.com
" ++ lit "From:" ++ lit " Jane Doe <jane@example.com>" ++ lit "
To: bob@example.com"))
  = (Some (lit "Jane Doe"), Some (lit "jane@example.com")).
Proof.
  apply (@sender_recovered_from_first_from_line (Some []) (Some [])
           (lit "Received: by mx.example.com
") (lit "From:") (lit "
To: bob@example.com")); reflexivity.
Defined.

(** X10 on headers that carry the sender only in an [X-From:] line. *)
Lemma no_from_line_keeps_sender_witness :
  recover_sender (Some (lit "Jane")) None (Some Sample.relayed_headers)
  = (Some (lit "Jane"), None).
Proof.
  apply (@no_from_line_keeps_sender (Some (lit "Jane")) None
           Sample.relayed_headers).
  vm_compute. reflexivity.
Defined.

(** *** Tiered recovery of attachment data *)

(** X12 on [Sample.report]. *)
Lemma read_buffer_result_is_kept_witness :
  match fst (extract_attachment (Sample.with_attachment Sample.report) 0 fresh)
  with
  | Ok (Some entry) => data entry = Some Sample.report_bytes /\ size entry = 3
  | Ok None => False
  | Raise e => Attachment.name Sample.report = Raise e
  end.
Proof.
  apply (@read_buffer_result_is_kept unit
           (Sample.with_attachment Sample.report) 0 Sample.report 3
           (fun _ => Ok (Some Sample.report_bytes)) Sample.report_bytes fresh);
    (reflexivity || lia).
Defined.

(** X13 on [Sample.report_by_get_data]. *)
Lemma get_data_is_the_fallback_witness :
  match fst (extract_attachment
               (Sample.with_attachment Sample.report_by_get_data) 0 fresh)
  with
  | Ok (Some entry) => data entry = Some Sample.report_bytes /\ size entry = 3
  | Ok None => False
  | Raise e => Attachment.name Sample.report_by_get_data = Raise e
  end.
Proof.
  apply (@get_data_is_the_fallback unit
           (Sample.with_attachment Sample.report_by_get_data) 0
           Sample.report_by_get_data 3
           (fun _ => Raise OSError) (Ok (Some Sample.report_bytes))
           Sample.report_bytes fresh);
    (reflexivity || lia).
Defined.

(** *** Structure and headers of the record *)

(** X6 on a message with a plain-text body and the attachment
    [Sample.report]. *)
Lemma mixed_has_one_part_per_recovered_attachment_witness :
  exists msg w',
    convert_pst_message_to_email Sample.py
      (Sample.with_attachment Sample.report) None fresh = (Ok msg, w') /\
    exists parts,
      root msg
      = MIMEMultipart "mixed"
          (body_part
             (content (Message.plain_text_body
                         (Sample.with_attachment Sample.report)))
             (content (Message.html_body
                         (Sample.with_attachment Sample.report)))
           :: parts) /\
      Forall2 (fun a part =>
                 exists payload,
                   data a = Some payload /\
                   part = MIMEBase "application" "octet-stream" payload true
                            (lit "attachment; filename=" ++ quote
                               ++ filename a ++ quote))
              (filter recovered
                 (attachments_of (Sample.with_attachment Sample.report)))
              parts.
Proof.
  eexists _, _. split; [vm_compute; reflexivity|].
  eapply (@mixed_has_one_part_per_recovered_attachment unit Sample.py
            (Sample.with_attachment Sample.report) None fresh);
    [vm_compute; discriminate | vm_compute; reflexivity].
Defined.

Example record_with_report :
  option_map root
    (match built Sample.py (Sample.with_attachment Sample.report) with
     | Ok msg => Some msg
     | Raise _ => None
     end)
  = Some (MIMEMultipart "mixed"
            [MIMEText (lit "see attached") "plain" "utf-8";
             MIMEBase "application" "octet-stream" Sample.report_bytes true
               (lit "attachment; filename=" ++ quote ++ lit "report.pdf"
                  ++ quote)]).
Proof. reflexivity. Qed.

(** X7 on [Sample.unreadable_bodies]. *)
Lemma placeholder_for_unreadable_bodies_witness :
  exists msg w',
    convert_pst_message_to_email Sample.py Sample.unreadable_bodies None fresh
    = (Ok msg, w') /\
    root msg = MIMEText (lit "(No content)") "plain" "utf-8".
Proof.
  eexists _, _. split; [vm_compute; reflexivity|].
  eapply (@placeholder_for_unreadable_bodies unit Sample.py
            Sample.unreadable_bodies None fresh);
    [reflexivity | reflexivity | reflexivity | vm_compute; reflexivity].
Defined.

(** X8 on [Sample.both_bodies], filed under [Inbox]. *)
Lemma headers_in_fixed_order_witness :
  exists msg w',
    convert_pst_message_to_email Sample.py Sample.both_bodies
      (Some (lit "Inbox")) fresh = (Ok msg, w') /\
    exists has_from has_to has_id : bool,
      List.map fst (headers msg)
      = ["Content-Type"%string; "MIME-Version"%string]
          ++ optional (single_text_part (root msg))
               "Content-Transfer-Encoding"%string
          ++ ["Subject"%string]
          ++ optional has_from "From"%string
          ++ optional has_to "To"%string
          ++ ["Date"%string]
          ++ optional has_id "Message-ID"%string
          ++ optional (truthy_opt truthy_str (Some (lit "Inbox")))
               "X-Folder"%string /\
      (unixfrom msg = None <-> has_from = false).
Proof.
  eexists _, _. split; [vm_compute; reflexivity|].
  eapply (@headers_in_fixed_order unit Sample.py Sample.both_bodies
            (Some (lit "Inbox")) fresh).
  vm_compute; reflexivity.
Defined.

Example headers_of_unreadable_bodies :
  option_map headers
    (match built Sample.py Sample.unreadable_bodies with
     | Ok msg => Some msg
     | Raise _ => None
     end)
  = Some [("Content-Type"%string,
           lit "text/plain; charset=" ++ quote ++ lit "utf-8" ++ quote);
          ("MIME-Version"%string, lit "1.0");
          ("Content-Transfer-Encoding"%string, lit "base64");
          ("Subject"%string, lit "(No Subject)");
          ("Date"%string, lit "%a, %d %b %Y %H:%M:%S %z");
          ("X-Folder"%string, lit "Unknown")].
Proof. reflexivity. Qed.

(** X9 on [Sample.unreadable_bodies], whose subject is None. *)
Lemma subject_first_and_folder_last_witness :
  exists msg w',
    convert_pst_message_to_email Sample.py Sample.unreadable_bodies
      (Some (lit "Inbox/Old")) fresh = (Ok msg, w') /\
    (exists constructed subject rest,
        headers msg = constructed ++ ("Subject"%string, subject) :: rest /\
        List.map fst constructed
        = ["Content-Type"%string; "MIME-Version"%string]
            ++ optional (single_text_part (root msg))
                 "Content-Transfer-Encoding"%string /\
        subject <> []) /\
    (forall path, Some (lit "Inbox/Old") = Some path -> path <> [] ->
                  exists before,
                    headers msg = before ++ [("X-Folder"%string, path)]).
Proof.
  eexists _, _. split; [vm_compute; reflexivity|].
  eapply (@subject_first_and_folder_last unit Sample.py
            Sample.unreadable_bodies (Some (lit "Inbox/Old")) fresh).
  vm_compute; reflexivity.
Defined.

(** *** The run *)

(** X4 on [Sample.env], whose second message fails. *)
Lemma run_succeeds_despite_message_failures_witness :
  fst (convert Sample.py Sample.env fresh) = Ok true.
Proof.
  apply (@run_succeeds_despite_message_failures unit Sample.py Sample.env
           Sample.archive Sample.mbox_ok fresh); try reflexivity.
  split; [repeat constructor; vm_compute; exact I | exact I].
Defined.

(** X5 on [Sample.declined]. *)
Lemma failure_before_lock_touches_nothing_witness :
  let w' := snd (convert Sample.py Sample.declined fresh) in
  fst (convert Sample.py Sample.declined fresh) = Ok false /\
  mbox w' = mbox fresh /\
  processed_emails w' = processed_emails fresh /\
  failed_emails w' = failed_emails fresh /\
  exists lines,
    trace w'
    = trace fresh ++ List.map Log (lines ++ [Error_conversion_failed ValueError]).
Proof.
  apply (@failure_before_lock_touches_nothing unit Sample.py Sample.declined
           ValueError fresh); [left; reflexivity | reflexivity].
Defined.

(** *** Validation of the paths *)

(** X15 on [Validation.sample], where the answer is [Yes]. *)
Lemma overwrite_needs_yes_witness :
  (fst (Validation.validate_files Validation.sample) = None <->
   Validation.str_lower (lit "Yes") = lit "y" \/
   Validation.str_lower (lit "Yes") = lit "yes") /\
  (fst (Validation.validate_files Validation.sample) <> None ->
   fst (Validation.validate_files Validation.sample)
   = Some Validation.ValueError_operation_cancelled_by_user).
Proof.
  apply (@overwrite_needs_yes Validation.sample (lit "Yes")); reflexivity.
Defined.

(** X16 on [Validation.sample]. *)
Lemma prompt_only_after_directory_made_witness :
  Validation.pst_exists Validation.sample = true /\
  Validation.pst_is_file Validation.sample = true /\
  Validation.mkdir_error Validation.sample = None /\
  Validation.output_exists Validation.sample = true /\
  exists before,
    snd (Validation.validate_files Validation.sample)
    = before ++ [Validation.Mkdir_parents; Validation.Input_overwrite_prompt].
Proof.
  apply (@prompt_only_after_directory_made Validation.sample).
  vm_compute. right. left. reflexivity.
Defined.

(** *** Recipients and folder *)

(** X18 on [Sample.undecodable], [Sample.alice] and [Sample.nameless]. *)
Lemma recipients_listed_in_order_witness :
  fst (for_each_recipient Sample.py
         [Sample.undecodable; Sample.alice; Sample.nameless] [] fresh)
  = Ok ([] ++ List.map
                (fun r => format_email_address Sample.py (address_of r)
                            (name_of r))
                (filter has_address
                   [Sample.undecodable; Sample.alice; Sample.nameless]),
        None).
Proof.
  apply (@recipients_listed_in_order unit Sample.py
           [Sample.undecodable; Sample.alice; Sample.nameless] [] fresh).
  reflexivity.
Defined.

Example two_recipients_listed :
  fst (for_each_recipient Sample.py
         [Sample.undecodable; Sample.alice; Sample.nameless] [] fresh)
  = Ok ([lit "Alice <alice@example.com>"; lit "carol@example.com"], None).
Proof. reflexivity. Qed.

(** X19 on [Sample.unreadable_bodies], which has no folder. *)
Lemma unfiled_message_goes_to_unknown_witness :
  exists msg,
    built Sample.py Sample.unreadable_bodies = Ok msg /\
    exists before,
      headers msg = before ++ [("X-Folder"%string, lit "Unknown")].
Proof.
  eexists. split; [vm_compute; reflexivity|].
  eapply (@unfiled_message_goes_to_unknown unit Sample.py
            Sample.unreadable_bodies);
    [reflexivity | vm_compute; reflexivity].
Defined.

(** *** The Message-ID header *)

(** X21 on headers in which the label recurs within one line. *)
Lemma message_id_follows_first_label_witness :
  message_id (lit "X-" ++ lit "Message-ID:" ++ lit " <p@x>"
                ++ lit "Message-ID: <q@x>")
  = strip (lit " <p@x>").
Proof.
  apply (@message_id_follows_first_label (lit "X-") (lit " <p@x>")
           (lit "Message-ID: <q@x>"));
    [reflexivity | reflexivity | vm_compute; intuition discriminate
    | right; right; reflexivity].
Defined.

Example message_id_of_a_header_line :
  message_id (lit "Received: by mx" ++ newline
                ++ lit "Message-ID: <a@example.com> " ++ newline
                ++ lit "To: bob@example.com")
  = lit "<a@example.com>".
Proof. reflexivity. Qed.
